(** * secure-file-drop: the native SHA-256 file hasher and its CLI driver

    A shallow embedding of [src/native/sfd_hash.c] and
    [src/native/sfd_hash_cli.c], together with the environment these two
    files run against: the C stdio stream of the file being hashed and the
    OpenSSL EVP digest interface. *)

From Stdlib Require Import ZArith Lia String Ascii DecimalString DecimalN.
From Stdlib.Strings Require Import Byte.
From stdpp Require Import list.

Local Open Scope Z_scope.

(** ** Bytes

    [uint8_t] and [unsigned char] values are [Byte.byte]; [byte_val] is the
    integer promotion the C expressions apply to them. *)

Definition byte_val (b : byte) : Z := Z.of_N (Byte.to_N b).

Definition byte_of_Z (z : Z) : byte :=
  match Byte.of_N (Z.to_N (z mod 256)) with
  | Some b => b
  | None => x00
  end.

#[global] Instance byte_inhabited : Inhabited byte := populate x00.
#[global] Instance ascii_inhabited : Inhabited ascii := populate zero.

(** ** SHA-256 (FIPS 180-4)

    The digest the EVP interface computes when it is asked for
    [EVP_sha256()].  It is the reference the hasher's output is compared
    with; the hasher itself never looks inside it. *)

Module SHA256.

Definition wrap32 (x : Z) : Z := Z.land x 0xffffffff.
Definition add32 (x y : Z) : Z := wrap32 (x + y).
Definition not32 (x : Z) : Z := Z.lxor x 0xffffffff.
Definition rotr (n x : Z) : Z :=
  Z.lor (Z.shiftr x n) (wrap32 (Z.shiftl x (32 - n))).

Definition Ch (x y z : Z) : Z := Z.lxor (Z.land x y) (Z.land (not32 x) z).
Definition Maj (x y z : Z) : Z :=
  Z.lxor (Z.lxor (Z.land x y) (Z.land x z)) (Z.land y z).
Definition Sigma0 (x : Z) : Z :=
  Z.lxor (Z.lxor (rotr 2 x) (rotr 13 x)) (rotr 22 x).
Definition Sigma1 (x : Z) : Z :=
  Z.lxor (Z.lxor (rotr 6 x) (rotr 11 x)) (rotr 25 x).
Definition sigma0 (x : Z) : Z :=
  Z.lxor (Z.lxor (rotr 7 x) (rotr 18 x)) (Z.shiftr x 3).
Definition sigma1 (x : Z) : Z :=
  Z.lxor (Z.lxor (rotr 17 x) (rotr 19 x)) (Z.shiftr x 10).

(** The constants are not tabulated but derived as the standard defines
    them: the round constants are the first 32 bits of the fractional
    parts of the cube roots of the first 64 primes, the initial hash value
    those of the square roots of the first 8. *)
Definition primes : list Z :=
  [   2;   3;   5;   7;  11;  13;  17;  19;  23;  29;  31;  37;  41;  43;
     47;  53;  59;  61;  67;  71;  73;  79;  83;  89;  97; 101; 103; 107;
    109; 113; 127; 131; 137; 139; 149; 151; 157; 163; 167; 173; 179; 181;
    191; 193; 197; 199; 211; 223; 227; 229; 233; 239; 241; 251; 257; 263;
    269; 271; 277; 281; 283; 293; 307; 311 ].

(** The largest [r] below [2 ^ bits] with [r ^ 3 <= x], on top of [acc]. *)
Fixpoint cube_root_bits (bits : nat) (x acc : Z) : Z :=
  match bits with
  | O => acc
  | S b =>
      let r := acc + 2 ^ Z.of_nat b in
      cube_root_bits b x (if r * r * r <=? x then r else acc)
  end.

Definition cube_root (x : Z) : Z := cube_root_bits 40 x 0.

Definition K : list Z :=
  Eval vm_compute in map (fun q => wrap32 (cube_root (q * 2 ^ 96))) primes.

Definition H0 : list Z :=
  Eval vm_compute in map (fun q => wrap32 (Z.sqrt (q * 2 ^ 64))) (take 8 primes).

(** Big-endian packing of bytes into words and back. *)
Fixpoint words_of_bytes (bs : list byte) : list Z :=
  match bs with
  | b0 :: b1 :: b2 :: b3 :: rest =>
      (byte_val b0 * 2 ^ 24 + byte_val b1 * 2 ^ 16
       + byte_val b2 * 2 ^ 8 + byte_val b3) :: words_of_bytes rest
  | _ => []
  end.

Definition bytes_of_word (w : Z) : list byte :=
  [ byte_of_Z (Z.shiftr w 24); byte_of_Z (Z.shiftr w 16);
    byte_of_Z (Z.shiftr w 8); byte_of_Z w ].

Definition bytes_of_len64 (n : Z) : list byte :=
  bytes_of_word (Z.shiftr n 32) ++ bytes_of_word n.

(** Padding: one [0x80] byte, the least number of zero bytes that brings
    the length to 56 modulo 64, and the bit length on 64 bits. *)
Definition pad (msg : list byte) : list byte :=
  let n := Z.of_nat (length msg) in
  let k := Z.to_nat ((55 - n) mod 64) in
  msg ++ x80 :: replicate k x00 ++ bytes_of_len64 ((8 * n) mod 2 ^ 64).

(** Message schedule.  [win] holds the sixteen most recent words, newest
    first. *)
Fixpoint schedule (rounds : nat) (win : list Z) : list Z :=
  match rounds with
  | O => []
  | S r =>
      let w := add32 (add32 (sigma1 (win !!! 1%nat)) (win !!! 6%nat))
                     (add32 (sigma0 (win !!! 14%nat)) (win !!! 15%nat)) in
      w :: schedule r (w :: take 15 win)
  end.

Definition round (st : list Z) (kw : Z * Z) : list Z :=
  match st with
  | [a; b; c; d; e; f; g; h] =>
      let t1 := add32 (add32 (add32 h (Sigma1 e)) (Ch e f g))
                      (add32 (fst kw) (snd kw)) in
      let t2 := add32 (Sigma0 a) (Maj a b c) in
      [add32 t1 t2; a; b; c; add32 d t1; e; f; g]
  | _ => st
  end.

Definition compress (h : list Z) (block : list byte) : list Z :=
  let w16 := words_of_bytes block in
  let w := w16 ++ schedule 48 (rev w16) in
  zip_with add32 h (foldl round h (zip K w)).

Fixpoint blocks (n : nat) (h : list Z) (bs : list byte) : list Z :=
  match n with
  | O => h
  | S m => blocks m (compress h (take 64 bs)) (drop 64 bs)
  end.

Definition digest (msg : list byte) : list byte :=
  let p := pad msg in
  concat (map bytes_of_word (blocks (length p / 64) H0 p)).

End SHA256.

(** ** The C stdio stream of the file being read

    A file on disk has its bytes and, possibly, an offset at which the
    device stops delivering data (a read fault).  [fopen] yields a stream:
    the bytes that will still be delivered, whether the device fails once
    they are exhausted, and the two sticky indicators [feof] and [ferror]
    test. *)

Record disk_file := {
  content : list byte;
  read_fault : option nat
}.

Record FILE := {
  pending : list byte;
  faulty : bool;
  eof_ind : bool;
  err_ind : bool
}.

Definition delivered (d : disk_file) : list byte :=
  match read_fault d with
  | Some k => take k (content d)
  | None => content d
  end.

Definition fault_hit (d : disk_file) : bool :=
  match read_fault d with
  | Some k => bool_decide (k <= length (content d))%nat
  | None => false
  end.

(** [fopen(path, "rb")]: [None] is the NULL result. *)
Definition fopen (fs : string -> option disk_file) (path : string) : option FILE :=
  match fs path with
  | Some d => Some {| pending := delivered d; faulty := fault_hit d;
                      eof_ind := false; err_ind := false |}
  | None => None
  end.

(** [fread(buf, 1, nmemb, f)]: the bytes stored in [buf] (their number is
    the return value) and the stream afterwards.  A short count sets the
    error indicator when the device failed and the end-of-file indicator
    otherwise. *)
Definition fread (f : FILE) (nmemb : nat) : list byte * FILE :=
  let got := take nmemb (pending f) in
  let short := (length got <? nmemb)%nat in
  (got, {| pending := drop nmemb (pending f);
           faulty := faulty f;
           eof_ind := eof_ind f || (short && negb (faulty f));
           err_ind := err_ind f || (short && faulty f) |}).

Definition feof (f : FILE) : bool := eof_ind f.
Definition ferror (f : FILE) : bool := err_ind f.

(** ** The OpenSSL EVP digest interface

    A provider says which calls succeed.  A digest context is the sequence
    of bytes absorbed so far; [EVP_DigestFinal_ex] hands back the bytes it
    stored in [md], whose number is [md_len]. *)

Record evp_provider := {
  ctx_new_ok : bool;
  digest_init_ok : bool;
  digest_update_ok : list byte -> list byte -> bool;
  digest_final : list byte -> option (list byte)
}.

Definition EVP_MD_CTX := list byte.

Definition EVP_MD_CTX_new (p : evp_provider) : option EVP_MD_CTX :=
  if ctx_new_ok p then Some [] else None.

Definition EVP_DigestInit_ex (p : evp_provider) (ctx : EVP_MD_CTX) : Z * EVP_MD_CTX :=
  if digest_init_ok p then (1, []) else (0, ctx).

Definition EVP_DigestUpdate (p : evp_provider) (ctx : EVP_MD_CTX) (data : list byte)
  : Z * EVP_MD_CTX :=
  if digest_update_ok p ctx data then (1, ctx ++ data) else (0, ctx).

Definition EVP_DigestFinal_ex (p : evp_provider) (ctx : EVP_MD_CTX) : Z * list byte :=
  match digest_final p ctx with
  | Some md => (1, md)
  | None => (0, [])
  end.

(** The provider that never fails and computes SHA-256. *)
Definition openssl : evp_provider :=
  {| ctx_new_ok := true;
     digest_init_ok := true;
     digest_update_ok := fun _ _ => true;
     digest_final := fun msg => Some (SHA256.digest msg) |}.

(** A provider may fail, but a 32-byte result it reports is the SHA-256 of
    what it absorbed. *)
Definition computes_sha256 (p : evp_provider) : Prop :=
  forall msg md, digest_final p msg = Some md -> length md = 32%nat ->
                 md = SHA256.digest msg.

(** ** Observable actions of the hasher *)

Inductive event :=
| Fopen (path : string) (ok : bool)
| Fread (n : nat)
| Fclose
| MdCtxNew (ok : bool)
| DigestInit (ok : bool)
| DigestUpdate (data : list byte) (ok : bool)
| DigestFinal (ok : bool) (md_len : nat)
| MdCtxFree.

(** ** [src/native/sfd_hash.h] *)

Definition SFD_SHA256_LEN : nat := 32.

(** ** [src/native/sfd_hash.c] *)

Definition hex : list ascii := list_ascii_of_string "0123456789abcdef".

(** The [for] loop of [sfd_hex_encode_lower], at index [i] with [iters]
    iterations to go.  [out_hex] is the destination array; a store is a
    list update at that index. *)
Fixpoint hex_encode_loop (bytes : list byte) (i iters : nat) (out_hex : list ascii)
  : list ascii :=
  match iters with
  | O => out_hex
  | S iters' =>
      let b := byte_val (bytes !!! i) in
      let out1 :=
        <[(i * 2)%nat := hex !!! Z.to_nat (Z.land (Z.shiftr b 4) 0x0F)]> out_hex in
      let out2 :=
        <[(i * 2 + 1)%nat := hex !!! Z.to_nat (Z.land b 0x0F)]> out1 in
      hex_encode_loop bytes (S i) iters' out2
  end.

Definition sfd_hex_encode_lower (bytes : list byte) (len : nat) (out_hex : list ascii)
  : list ascii :=
  <[(len * 2)%nat := zero]> (hex_encode_loop bytes 0 len out_hex).

(** [sizeof(buf)] for [unsigned char buf[64 * 1024]]. *)
Definition sizeof_buf : nat := 64 * 1024.

Definition UINT64_MOD : Z := 2 ^ 64.

(** How the [while (1)] loop is left: by [break], or by a [return] from
    inside it.  Either way the value of [*out_bytes] and the actions so far
    are carried along. *)
Inductive loop_exit :=
| Break (ctx : EVP_MD_CTX) (out_bytes : Z) (tr : list event)
| Return (rc : Z) (out_bytes : Z) (tr : list event).

(** One pass through the body of the loop either leaves the loop or goes
    round again with the stream, the context, [*out_bytes] and the actions
    as they now are. *)
Inductive iteration :=
| Exit (ex : loop_exit)
| Continue (f : FILE) (ctx : EVP_MD_CTX) (out_bytes : Z) (tr : list event).

(** The body of the loop, lines 44 to 63. *)
Definition loop_body (p : evp_provider) (f : FILE) (ctx : EVP_MD_CTX)
  (out_bytes : Z) (tr : list event) : iteration :=
  let '(buf, f) := fread f sizeof_buf in
  let n := length buf in
  let tr := tr ++ [Fread n] in
  let check_end ctx out_bytes tr :=
    if (n <? sizeof_buf)%nat then
      if feof f then Exit (Break ctx out_bytes tr)
      else if ferror f then
        Exit (Return 2 out_bytes (tr ++ [MdCtxFree; Fclose]))
      else Continue f ctx out_bytes tr
    else Continue f ctx out_bytes tr in
  if (0 <? n)%nat then
    let '(r, ctx') := EVP_DigestUpdate p ctx buf in
    if negb (r =? 1) then
      Exit (Return 3 out_bytes (tr ++ [DigestUpdate buf false; MdCtxFree; Fclose]))
    else
      check_end ctx' ((out_bytes + Z.of_nat n) mod UINT64_MOD)
                (tr ++ [DigestUpdate buf true])
  else check_end ctx out_bytes tr.

(** The [while (1)] loop; [fuel] bounds the number of iterations. *)
Fixpoint read_loop (fuel : nat) (p : evp_provider) (f : FILE) (ctx : EVP_MD_CTX)
  (out_bytes : Z) (tr : list event) : option loop_exit :=
  match fuel with
  | O => None
  | S fuel' =>
      match loop_body p f ctx out_bytes tr with
      | Exit ex => Some ex
      | Continue f ctx out_bytes tr => read_loop fuel' p f ctx out_bytes tr
      end
  end.

(** What a call leaves behind: the return value, the caller's two output
    objects ([None] for a NULL pointer) and the actions performed. *)
Record hash_result := {
  rc : Z;
  hash_after : option (list byte);
  bytes_after : option Z;
  trace : list event
}.

Definition memcpy (dst src : list byte) (n : nat) : list byte :=
  take n src ++ drop n dst.

(** A pointer argument is [None] when it is NULL and otherwise carries the
    object it points to: the path string, the current contents of the
    [out_hash] array, the current value of [*out_bytes]. *)
Definition sfd_sha256_file (fuel : nat) (fs : string -> option disk_file)
  (p : evp_provider) (path : option string) (out_hash : option (list byte))
  (out_bytes : option Z) : option hash_result :=
  match path, out_hash, out_bytes with
  | Some path, Some hash, Some _ =>
      let done rc bytes hash tr :=
        Some {| rc := rc; hash_after := Some hash; bytes_after := Some bytes;
                trace := tr |} in
      let bytes := 0 in
      match fopen fs path with
      | None => done 2 bytes hash [Fopen path false]
      | Some f =>
          let tr := [Fopen path true] in
          match EVP_MD_CTX_new p with
          | None => done 3 bytes hash (tr ++ [MdCtxNew false; Fclose])
          | Some ctx =>
              let tr := tr ++ [MdCtxNew true] in
              let '(r, ctx) := EVP_DigestInit_ex p ctx in
              if negb (r =? 1) then
                done 3 bytes hash (tr ++ [DigestInit false; MdCtxFree; Fclose])
              else
                match read_loop fuel p f ctx bytes (tr ++ [DigestInit true]) with
                | None => None
                | Some (Return rc bytes tr) => done rc bytes hash tr
                | Some (Break ctx bytes tr) =>
                    let '(r, md) := EVP_DigestFinal_ex p ctx in
                    let md_len := length md in
                    if negb (r =? 1) then
                      done 3 bytes hash
                           (tr ++ [DigestFinal false md_len; MdCtxFree; Fclose])
                    else
                      let tr := tr ++ [DigestFinal true md_len; MdCtxFree; Fclose] in
                      if negb (md_len =? SFD_SHA256_LEN)%nat then
                        done 3 bytes hash tr
                      else
                        done 0 bytes (memcpy hash md SFD_SHA256_LEN) tr
                end
          end
      end
  | _, _, _ =>
      Some {| rc := 1; hash_after := out_hash; bytes_after := out_bytes;
              trace := [] |}
  end.

(** ** [src/native/sfd_hash_cli.c] *)

Local Open Scope string_scope.

Definition dquote : ascii := "034".
Definition newline : ascii := "010".

(** The text a [%s] conversion prints for a [char] array: the characters
    before the first NUL. *)
Fixpoint c_string (buf : list ascii) : string :=
  match buf with
  | [] => ""
  | c :: rest => if Ascii.eqb c zero then "" else String c (c_string rest)
  end.

(** The text a [%llu] conversion prints. *)
Definition print_llu (n : Z) : string :=
  NilZero.string_of_uint (N.to_uint (Z.to_N n)).

Definition quoted (s : string) : string :=
  String dquote (s ++ String dquote "").

(** The text [printf] produces for the format of the success line with the
    arguments [hex] and [bytes]. *)
Definition printf_json (hex : list ascii) (bytes : Z) : string :=
  "{" ++ quoted "algorithm" ++ ":" ++ quoted "sha256" ++ ","
      ++ quoted "hash" ++ ":" ++ quoted (c_string hex) ++ ","
      ++ quoted "bytes" ++ ":" ++ print_llu bytes ++ "}" ++ String newline "".

(** [usage(prog)]: the text sent to standard error.  [prog] is [argv[0]],
    which is NULL when the process was started with an empty argument
    vector; the C library then prints [(null)]. *)
Definition usage (prog : option string) : string :=
  "Usage: " ++ default "(null)" prog ++ " <file-path>" ++ String newline "".

(** What a run of the program leaves behind. *)
Record process := {
  exit_status : Z;
  stdout : string;
  stderr : string
}.

(** The contents of automatic arrays that are declared without an
    initialiser. *)
Record indeterminate := {
  junk_hash : nat -> byte;
  junk_hex : nat -> ascii
}.

(** [uint8_t hash[SFD_SHA256_LEN]] and [char hex[SFD_SHA256_LEN * 2 + 1]]
    as [main] declares them. *)
Definition hash0 (junk : indeterminate) : list byte :=
  junk_hash junk <$> seq 0 SFD_SHA256_LEN.
Definition hex0 (junk : indeterminate) : list ascii :=
  junk_hex junk <$> seq 0 (SFD_SHA256_LEN * 2 + 1).

(** Lines 22 to 38 of [main]: what is done with the value [rc] returned by
    the hasher, the [hash] array and the counter [bytes]. *)
Definition main_report (junk : indeterminate) (rc : Z) (hash : list byte) (bytes : Z)
  : process :=
  if negb (rc =? 0)%Z then
    if (rc =? 2)%Z then
      {| exit_status := 2; stdout := "";
         stderr := "File I/O error" ++ String newline "" |}
    else
      {| exit_status := 3; stdout := "";
         stderr := "Hashing error" ++ String newline "" |}
  else
    let hex := hex0 junk in
    let hex := sfd_hex_encode_lower hash SFD_SHA256_LEN hex in
    {| exit_status := 0; stdout := printf_json hex bytes; stderr := "" |}.

Definition main (fuel : nat) (fs : string -> option disk_file) (p : evp_provider)
  (junk : indeterminate) (argv : list string) : option process :=
  let argc := Z.of_nat (length argv) in
  if negb (argc =? 2)%Z then
    Some {| exit_status := 1; stdout := ""; stderr := usage (argv !! 0%nat) |}
  else
    let path := argv !! 1%nat in
    let hash := hash0 junk in
    let bytes := 0%Z in
    match sfd_sha256_file fuel fs p path (Some hash) (Some bytes) with
    | None => None
    | Some r =>
        Some (main_report junk (rc r) (default hash (hash_after r))
                          (default bytes (bytes_after r)))
    end.

Local Close Scope string_scope.

(** ** Reference notions the code is compared with *)

(** Lowercase hexadecimal, as the specification words it: a byte is two
    characters from [0-9a-f], high nibble first. *)
Definition nibble_char (v : Z) : ascii :=
  if (v <? 10)%Z then ascii_of_nat (Z.to_nat (48 + v))
  else ascii_of_nat (Z.to_nat (87 + v)).

Definition byte_hex (b : byte) : list ascii :=
  [nibble_char (byte_val b / 16); nibble_char (byte_val b mod 16)].

Definition hex_of_bytes (bs : list byte) : list ascii :=
  concat (byte_hex <$> bs).

Definition is_lower_hex (c : ascii) : bool :=
  let n := nat_of_ascii c in
  ((48 <=? n) && (n <=? 57) || (97 <=? n) && (n <=? 102))%nat.

(** The bytes a sequence of actions fed into the digest context. *)
Fixpoint fed (tr : list event) : list byte :=
  match tr with
  | [] => []
  | DigestUpdate data true :: tr' => data ++ fed tr'
  | _ :: tr' => fed tr'
  end.

(** The sizes of the reads a sequence of actions performed. *)
Fixpoint reads (tr : list event) : list nat :=
  match tr with
  | [] => []
  | Fread n :: tr' => n :: reads tr'
  | _ :: tr' => reads tr'
  end.

Definition is_release (e : event) : bool :=
  match e with
  | MdCtxFree | Fclose => true
  | _ => false
  end.

(** A call into the digest primitive that reported failure, or a
    finalisation that produced something other than 32 bytes. *)
Definition digest_failure (e : event) : bool :=
  match e with
  | MdCtxNew false | DigestInit false | DigestUpdate _ false
  | DigestFinal false _ => true
  | DigestFinal true md_len => negb (md_len =? 32)%nat
  | _ => false
  end.

(** The actions of one read that went well: the read itself and, when it
    returned something, the update that absorbed it. *)
Definition read_events (buf : list byte) : list event :=
  Fread (length buf) ::
  match buf with
  | [] => []
  | _ => [DigestUpdate buf true]
  end.

(** What the provider answers when the context holding [msg] is finalised,
    as the action the hasher records for it. *)
Definition final_event (p : evp_provider) (msg : list byte) : event :=
  match digest_final p msg with
  | Some md => DigestFinal true (length md)
  | None => DigestFinal false 0
  end.

(** The contents of the digest context after a sequence of actions that
    started with the context holding [ctx]: an initialisation that succeeds
    empties it and an update that succeeds appends its data.  The result is
    [None] when an update or a finalisation of the sequence does not have
    the outcome the provider [p] gives on the context as it is at that
    point. *)
Fixpoint ctx_after (p : evp_provider) (ctx : list byte) (tr : list event)
  : option (list byte) :=
  match tr with
  | [] => Some ctx
  | DigestInit true :: tr' => ctx_after p [] tr'
  | DigestUpdate data ok :: tr' =>
      if Bool.eqb ok (digest_update_ok p ctx data)
      then ctx_after p (if ok then ctx ++ data else ctx) tr'
      else None
  | DigestFinal ok md_len :: tr' =>
      match digest_final p ctx with
      | Some md =>
          if ok && (md_len =? length md)%nat then ctx_after p ctx tr' else None
      | None =>
          if negb ok && (md_len =? 0)%nat then ctx_after p ctx tr' else None
      end
  | _ :: tr' => ctx_after p ctx tr'
  end.

(** Fuel that lets the loop run to its end on a stream. *)
Definition enough_fuel (fuel : nat) (data : list byte) : Prop :=
  (length data / sizeof_buf < fuel)%nat.

(** ** The exit paths of [sfd_sha256_file]

    Once the file is open there are seven [return] statements that can end
    the call.  [exit_path] describes, for each of them, the condition under
    which it is taken and the result it leaves.  Lemma
    [sfd_sha256_file_exit_path] shows that every run ends in one of these
    ways. *)

Definition opened (path : string) : list event :=
  [Fopen path true; MdCtxNew true; DigestInit true].

(** The actions of a sequence of reads that each filled the buffer. *)
Definition reading (full : list (list byte)) : list event :=
  concat (read_events <$> full).

(** The stream delivers [full] buffers, then the bytes [last] of one more
    read, then [rest]. *)
Definition chunked (data : list byte) (full : list (list byte))
  (last rest : list byte) : Prop :=
  data = concat full ++ last ++ rest
  /\ Forall (fun c => length c = sizeof_buf) full
  /\ last = take sizeof_buf (last ++ rest).

Inductive exit_path (p : evp_provider) (path : string) (d : disk_file)
  (hash : list byte) : hash_result -> Prop :=
| ctx_new_failed :  (* line 33 *)
    ctx_new_ok p = false ->
    exit_path p path d hash
      {| rc := 3; hash_after := Some hash; bytes_after := Some 0;
         trace := [Fopen path true; MdCtxNew false; Fclose] |}
| init_failed :  (* line 39 *)
    ctx_new_ok p = true -> digest_init_ok p = false ->
    exit_path p path d hash
      {| rc := 3; hash_after := Some hash; bytes_after := Some 0;
         trace := [Fopen path true; MdCtxNew true; DigestInit false;
                   MdCtxFree; Fclose] |}
| update_failed full last rest :  (* line 49 *)
    ctx_new_ok p = true -> digest_init_ok p = true ->
    chunked (delivered d) full last rest ->
    digest_update_ok p (concat full) last = false ->
    exit_path p path d hash
      {| rc := 3; hash_after := Some hash;
         bytes_after := Some (Z.of_nat (length (concat full)) mod UINT64_MOD);
         trace := opened path ++ reading full
                    ++ [Fread (length last); DigestUpdate last false;
                        MdCtxFree; Fclose] |}
| read_failed full last :  (* line 61 *)
    ctx_new_ok p = true -> digest_init_ok p = true ->
    chunked (delivered d) full last [] -> (length last < sizeof_buf)%nat ->
    fault_hit d = true ->
    exit_path p path d hash
      {| rc := 2; hash_after := Some hash;
         bytes_after := Some (Z.of_nat (length (delivered d)) mod UINT64_MOD);
         trace := opened path ++ reading full ++ read_events last
                    ++ [MdCtxFree; Fclose] |}
| final_failed full last :  (* line 72 *)
    ctx_new_ok p = true -> digest_init_ok p = true ->
    chunked (delivered d) full last [] -> (length last < sizeof_buf)%nat ->
    fault_hit d = false ->
    digest_final p (delivered d) = None ->
    exit_path p path d hash
      {| rc := 3; hash_after := Some hash;
         bytes_after := Some (Z.of_nat (length (delivered d)) mod UINT64_MOD);
         trace := opened path ++ reading full ++ read_events last
                    ++ [DigestFinal false 0; MdCtxFree; Fclose] |}
| bad_length full last md :  (* line 79 *)
    ctx_new_ok p = true -> digest_init_ok p = true ->
    chunked (delivered d) full last [] -> (length last < sizeof_buf)%nat ->
    fault_hit d = false ->
    digest_final p (delivered d) = Some md ->
    length md <> SFD_SHA256_LEN ->
    exit_path p path d hash
      {| rc := 3; hash_after := Some hash;
         bytes_after := Some (Z.of_nat (length (delivered d)) mod UINT64_MOD);
         trace := opened path ++ reading full ++ read_events last
                    ++ [DigestFinal true (length md); MdCtxFree; Fclose] |}
| success full last md :  (* line 83 *)
    ctx_new_ok p = true -> digest_init_ok p = true ->
    chunked (delivered d) full last [] -> (length last < sizeof_buf)%nat ->
    fault_hit d = false ->
    digest_final p (delivered d) = Some md ->
    length md = SFD_SHA256_LEN ->
    exit_path p path d hash
      {| rc := 0; hash_after := Some (memcpy hash md SFD_SHA256_LEN);
         bytes_after := Some (Z.of_nat (length (delivered d)) mod UINT64_MOD);
         trace := opened path ++ reading full ++ read_events last
                    ++ [DigestFinal true (length md); MdCtxFree; Fclose] |}.

(** ** The success line, as the interface section words it

    A recogniser for the regular expression of the standard-output
    contract: an opening brace, the algorithm field with the value sha256,
    the hash field with exactly 64 characters from 0-9a-f, the bytes field
    with a decimal numeral that is 0 or has no leading zero, a closing
    brace and one newline, with nothing before, between or after. *)

Local Open Scope string_scope.

Definition is_digit (c : ascii) : bool :=
  let n := nat_of_ascii c in ((48 <=? n) && (n <=? 57))%nat.

Definition is_nonzero_digit (c : ascii) : bool :=
  let n := nat_of_ascii c in ((49 <=? n) && (n <=? 57))%nat.

(** What is left of [s] after the literal [lit]. *)
Fixpoint after_literal (lit s : string) : option string :=
  match lit with
  | "" => Some s
  | String c lit' =>
      match s with
      | String c' s' => if Ascii.eqb c c' then after_literal lit' s' else None
      | "" => None
      end
  end.

(** What is left of [s] after [n] characters from 0-9a-f. *)
Fixpoint after_hex (n : nat) (s : string) : option string :=
  match n with
  | O => Some s
  | S n' =>
      match s with
      | String c s' => if is_lower_hex c then after_hex n' s' else None
      | "" => None
      end
  end.

Fixpoint after_digits (s : string) : string :=
  match s with
  | String c s' => if is_digit c then after_digits s' else s
  | "" => ""
  end.

(** What is left of [s] after a numeral: the digit 0 alone, or a digit from
    1 to 9 and then as many digits as follow. *)
Definition after_count (s : string) : option string :=
  match s with
  | String c s' =>
      if Ascii.eqb c "0" then Some s'
      else if is_nonzero_digit c then Some (after_digits s')
      else None
  | "" => None
  end.

Fixpoint digits_only (s : string) : bool :=
  match s with
  | String c s' => is_digit c && digits_only s'
  | "" => true
  end.

(** The three literal stretches of the line. *)
Definition line_head : string :=
  "{" ++ quoted "algorithm" ++ ":" ++ quoted "sha256" ++ ","
      ++ quoted "hash" ++ ":" ++ String dquote "".
Definition line_middle : string :=
  String dquote "," ++ quoted "bytes" ++ ":".
Definition line_tail : string :=
  "}" ++ String newline "".

Definition matches_success_regex (s : string) : bool :=
  match after_literal line_head s with
  | None => false
  | Some s =>
      match after_hex 64 s with
      | None => false
      | Some s =>
          match after_literal line_middle s with
          | None => false
          | Some s =>
              match after_count s with
              | None => false
              | Some s => String.eqb s line_tail
              end
          end
      end
  end.

(** The success line for a digest and a byte count. *)
Definition success_line (digest : list byte) (count : Z) : string :=
  line_head ++ string_of_list_ascii (hex_of_bytes digest)
            ++ line_middle ++ print_llu count ++ line_tail.

(** Reading a decimal numeral: the number a string of digits stands for,
    most significant digit first.  A string that is empty or holds anything
    but digits stands for no number. *)
Fixpoint decimal_value_from (acc : Z) (s : string) : option Z :=
  match s with
  | "" => Some acc
  | String c s' =>
      if is_digit c
      then decimal_value_from (10 * acc + (Z.of_nat (nat_of_ascii c) - 48)) s'
      else None
  end.

Definition decimal_value (s : string) : option Z :=
  match s with
  | "" => None
  | _ => decimal_value_from 0 s
  end.

(** A numeral as the output contract wants it: the digit 0 alone, or digits
    of which the first is not 0. *)
Definition canonical_decimal (s : string) : bool :=
  match s with
  | "" => false
  | String c rest =>
      if Ascii.eqb c "0" then String.eqb rest ""
      else is_nonzero_digit c && digits_only rest
  end.

(** SHA-256 of the empty string, [e3b0c442...7852b855]. *)
Definition sha256_empty : list byte :=
  [ xe3; xb0; xc4; x42; x98; xfc; x1c; x14; x9a; xfb; xf4; xc8; x99; x6f; xb9; x24;
    x27; xae; x41; xe4; x64; x9b; x93; x4c; xa4; x95; x99; x1b; x78; x52; xb8; x55 ].

Definition sha256_empty_hex : string :=
  "e3b0c44298fc1c149afbf4c8996fb92427ae41e4649b934ca495991b7852b855".

(** A file system that holds one file. *)
Definition one_file (name : string) (d : disk_file) : string -> option disk_file :=
  fun s => if String.eqb s name then Some d else None.

(** ** Sample environments *)

Definition file_empty : disk_file := {| content := []; read_fault := None |}.
Definition file_a : disk_file := {| content := [x61]; read_fault := None |}.

(** Three bytes on disk, of which the device delivers two before failing. *)
Definition file_torn : disk_file :=
  {| content := [x61; x62; x63]; read_fault := Some 2%nat |}.

Definition zero_junk : indeterminate :=
  {| junk_hash := fun _ => x00; junk_hex := fun _ => zero |}.

Definition fs_empty : string -> option disk_file := one_file "empty" file_empty.
Definition fs_a : string -> option disk_file := one_file "a.txt" file_a.
Definition fs_torn : string -> option disk_file := one_file "torn" file_torn.

(** Providers that fail at one point each. *)
Definition no_context : evp_provider :=
  {| ctx_new_ok := false; digest_init_ok := true;
     digest_update_ok := fun _ _ => true;
     digest_final := fun msg => Some (SHA256.digest msg) |}.
Definition no_init : evp_provider :=
  {| ctx_new_ok := true; digest_init_ok := false;
     digest_update_ok := fun _ _ => true;
     digest_final := fun msg => Some (SHA256.digest msg) |}.
Definition no_update : evp_provider :=
  {| ctx_new_ok := true; digest_init_ok := true;
     digest_update_ok := fun _ _ => false;
     digest_final := fun msg => Some (SHA256.digest msg) |}.
Definition no_final : evp_provider :=
  {| ctx_new_ok := true; digest_init_ok := true;
     digest_update_ok := fun _ _ => true;
     digest_final := fun _ => None |}.
Definition short_final : evp_provider :=
  {| ctx_new_ok := true; digest_init_ok := true;
     digest_update_ok := fun _ _ => true;
     digest_final := fun msg => Some (take 20 (SHA256.digest msg)) |}.

(** A provider that cannot finalise a context that has absorbed nothing. *)
Definition needs_input : evp_provider :=
  {| ctx_new_ok := true; digest_init_ok := true;
     digest_update_ok := fun _ _ => true;
     digest_final := fun msg =>
                       match msg with
                       | [] => None
                       | _ => Some (SHA256.digest msg)
                       end |}.

(** The results of the sample runs used below. *)
Definition result_a : hash_result :=
  {| rc := 0;
     hash_after := Some (SHA256.digest [x61]);
     bytes_after := Some 1%Z;
     trace := opened "a.txt"
                ++ [Fread 1; DigestUpdate [x61] true; DigestFinal true 32;
                    MdCtxFree; Fclose] |}.

Definition result_torn : hash_result :=
  {| rc := 2;
     hash_after := Some (hash0 zero_junk);
     bytes_after := Some 2%Z;
     trace := opened "torn"
                ++ [Fread 2; DigestUpdate [x61; x62] true; MdCtxFree; Fclose] |}.

Definition result_no_final : hash_result :=
  {| rc := 3;
     hash_after := Some (hash0 zero_junk);
     bytes_after := Some 1%Z;
     trace := opened "a.txt"
                ++ [Fread 1; DigestUpdate [x61] true; DigestFinal false 0;
                    MdCtxFree; Fclose] |}.

Definition result_no_update : hash_result :=
  {| rc := 3;
     hash_after := Some (hash0 zero_junk);
     bytes_after := Some 0%Z;
     trace := opened "a.txt"
                ++ [Fread 1; DigestUpdate [x61] false; MdCtxFree; Fclose] |}.

Definition result_missing : hash_result :=
  {| rc := 2;
     hash_after := Some (hash0 zero_junk);
     bytes_after := Some 0%Z;
     trace := [Fopen "missing" false] |}.

Local Close Scope string_scope.

(** ** Further notions for the properties beyond the contract *)

(** Reading lowercase hexadecimal back: the value of a digit, and the bytes
    of a string of digit pairs. *)
Definition nibble_value (c : ascii) : option Z :=
  let n := Z.of_nat (nat_of_ascii c) in
  if (48 <=? n) && (n <=? 57) then Some (n - 48)
  else if (97 <=? n) && (n <=? 102) then Some (n - 87)
  else None.

Fixpoint hex_decode (cs : list ascii) : option (list byte) :=
  match cs with
  | [] => Some []
  | hi :: lo :: rest =>
      match nibble_value hi, nibble_value lo, hex_decode rest with
      | Some h, Some l, Some bs => Some (byte_of_Z (16 * h + l) :: bs)
      | _, _, _ => None
      end
  | _ => None
  end.

(** How many actions of a trace satisfy a test. *)
Fixpoint count_events (f : event -> bool) (tr : list event) : nat :=
  match tr with
  | [] => 0
  | e :: tr' => (if f e then 1 else 0) + count_events f tr'
  end.

Definition is_fopen_ok (e : event) : bool :=
  match e with Fopen _ true => true | _ => false end.
Definition is_fclose (e : event) : bool :=
  match e with Fclose => true | _ => false end.
Definition is_ctx_new_ok (e : event) : bool :=
  match e with MdCtxNew true => true | _ => false end.
Definition is_ctx_free (e : event) : bool :=
  match e with MdCtxFree => true | _ => false end.
Definition is_final (e : event) : bool :=
  match e with DigestFinal _ _ => true | _ => false end.

(** Tests that are false on the actions of the read loop proper. *)
Definition ignores_reading (f : event -> bool) : Prop :=
  (forall n, f (Fread n) = false) /\ (forall data ok, f (DigestUpdate data ok) = false).

(** A read never exceeds the staging buffer; an update is never empty and
    never exceeds it. *)
Definition event_sized (e : event) : Prop :=
  match e with
  | Fread n => (n <= sizeof_buf)%nat
  | DigestUpdate data _ => (0 < length data <= sizeof_buf)%nat
  | _ => True
  end.

Definition exit_trace (ex : loop_exit) : list event :=
  match ex with
  | Break _ _ tr => tr
  | Return _ _ tr => tr
  end.

(** The two lines [main] can print on standard error after calling the
    hasher, and what it leaves on success. *)
Definition io_error_exit : process :=
  {| exit_status := 2; stdout := EmptyString;
     stderr := ("File I/O error" ++ String newline "")%string |}.

Definition success_exit (digest : list byte) (count : Z) : process :=
  {| exit_status := 0; stdout := success_line digest count;
     stderr := EmptyString |}.

(** * Proofs *)

(** ** Hex encoding *)

Section hex_encoding.
Local Open Scope nat_scope.

Lemma hex_high_nibble (b : byte) :
  hex !!! Z.to_nat (Z.land (Z.shiftr (byte_val b) 4) 0x0F)
  = nibble_char (byte_val b / 16).
Proof. destruct b; reflexivity. Qed.

Lemma hex_low_nibble (b : byte) :
  hex !!! Z.to_nat (Z.land (byte_val b) 0x0F) = nibble_char (byte_val b mod 16).
Proof. destruct b; reflexivity. Qed.

Lemma byte_hex_lower (b : byte) : Forall (fun c => is_lower_hex c = true) (byte_hex b).
Proof. destruct b; repeat constructor. Qed.

Lemma byte_hex_nonzero (b : byte) : Forall (fun c => Ascii.eqb c zero = false) (byte_hex b).
Proof. destruct b; repeat constructor. Qed.

Lemma length_hex_of_bytes (bs : list byte) : length (hex_of_bytes bs) = 2 * length bs.
Proof.
  unfold hex_of_bytes. induction bs as [|b bs IH]; [reflexivity|].
  rewrite fmap_cons. cbn [concat]. rewrite length_app, IH. cbn. lia.
Qed.

Lemma hex_of_bytes_lower (bs : list byte) :
  Forall (fun c => is_lower_hex c = true) (hex_of_bytes bs).
Proof.
  unfold hex_of_bytes. induction bs as [|b bs IH]; [constructor|].
  rewrite fmap_cons. cbn [concat]. apply Forall_app. split; [apply byte_hex_lower | exact IH].
Qed.

Lemma hex_of_bytes_nonzero (bs : list byte) :
  Forall (fun c => Ascii.eqb c zero = false) (hex_of_bytes bs).
Proof.
  unfold hex_of_bytes. induction bs as [|b bs IH]; [constructor|].
  rewrite fmap_cons. cbn [concat]. apply Forall_app. split; [apply byte_hex_nonzero | exact IH].
Qed.

(** Two adjacent stores replace two adjacent cells. *)
Lemma store_pair (out : list ascii) (j : nat) (x y : ascii) :
  j + 1 < length out ->
  <[j + 1 := y]> (<[j := x]> out) = take j out ++ [x; y] ++ drop (j + 2) out.
Proof.
  intros Hj.
  rewrite (insert_take_drop out j x) by lia.
  rewrite insert_app_r_alt by (rewrite length_take; lia).
  rewrite length_take, Nat.min_l by lia.
  replace (j + 1 - j) with 1 by lia.
  destruct (drop (S j) out) as [|c rest] eqn:Hd.
  - apply (f_equal length) in Hd. rewrite length_drop in Hd. cbn in Hd. lia.
  - cbn. do 3 f_equal.
    replace (j + 2) with (S j + 1) by lia.
    rewrite <- drop_drop, Hd. reflexivity.
Qed.

(** The loop, started at index [i] with the cells below [i * 2] already
    written, overwrites exactly the next [2 * iters] cells. *)
Lemma hex_encode_loop_spec (bytes : list byte) (iters : nat) :
  forall (i : nat) (out : list ascii),
    i + iters <= length bytes ->
    2 * (i + iters) < length out ->
    hex_encode_loop bytes i iters out
    = take (2 * i) out ++ hex_of_bytes (take iters (drop i bytes))
        ++ drop (2 * (i + iters)) out.
Proof.
  induction iters as [|k IH]; intros i out Hb Ho.
  - cbn [hex_encode_loop]. rewrite take_0, Nat.add_0_r.
    change (hex_of_bytes []) with (@nil ascii). cbn [app].
    symmetry. apply take_drop.
  - cbn [hex_encode_loop].
    destruct (lookup_lt_is_Some_2 bytes i ltac:(lia)) as [b Hbi].
    rewrite (list_lookup_total_correct _ _ _ Hbi).
    rewrite hex_high_nibble, hex_low_nibble.
    replace (i * 2) with (2 * i) by lia.
    rewrite store_pair by lia.
    rewrite IH; [| lia | rewrite !length_app, length_take, length_drop; cbn; lia].
    rewrite (drop_S _ _ _ Hbi). rewrite firstn_cons.
    unfold hex_of_bytes at 2. rewrite fmap_cons. cbn [concat].
    fold (hex_of_bytes (take k (drop (S i) bytes))).
    assert (Hlen : length (take (2 * i) out) = 2 * i) by (rewrite length_take; lia).
    replace (2 * S i) with (length (take (2 * i) out) + 2) by lia.
    rewrite take_app_add'; [|reflexivity].
    rewrite (take_app_length' [_; _]) by reflexivity.
    replace (2 * (S i + k)) with (length (take (2 * i) out) + (2 + 2 * k)) by lia.
    rewrite drop_app_add'; [|reflexivity].
    rewrite (drop_app_add' [_; _] _ 2) by reflexivity.
    rewrite drop_drop.
    replace (2 * i + 2 + 2 * k) with (2 * (i + S k)) by lia.
    rewrite <- !app_assoc. reflexivity.
Qed.

Lemma sfd_hex_encode_lower_spec (bytes : list byte) (out_hex : list ascii) :
  2 * length bytes < length out_hex ->
  sfd_hex_encode_lower bytes (length bytes) out_hex
  = hex_of_bytes bytes ++ zero :: drop (2 * length bytes + 1) out_hex.
Proof.
  intros Hlen. unfold sfd_hex_encode_lower.
  rewrite hex_encode_loop_spec by (cbn; lia).
  rewrite take_0, drop_0, take_ge by lia. cbn [app Nat.add].
  replace (length bytes * 2) with (length (hex_of_bytes bytes) + 0)
    by (rewrite length_hex_of_bytes; lia).
  rewrite insert_app_r. f_equal.
  rewrite <- drop_drop.
  destruct (drop (2 * length bytes) out_hex) as [|c rest] eqn:Hd; [|reflexivity].
  apply (f_equal length) in Hd. rewrite length_drop in Hd. cbn [length] in Hd. lia.
Qed.

Lemma c_string_terminated (s rest : list ascii) :
  Forall (fun c => Ascii.eqb c zero = false) s ->
  c_string (s ++ zero :: rest) = string_of_list_ascii s.
Proof.
  induction 1 as [|c s Hc _ IH]; [reflexivity|].
  cbn. rewrite Hc, IH. reflexivity.
Qed.

End hex_encoding.

(** C5: for a byte array [bytes] and a destination with room for
    [2 * len + 1] characters, [sfd_hex_encode_lower] leaves in the
    destination the [2 * len] characters of the lowercase hex encoding (two
    characters per byte, high nibble first, all in [0-9a-f], nothing
    between, before or after them), then a NUL at index [2 * len], and does
    not touch the cells beyond. *)
Theorem sfd_hex_encode_lower_correct (bytes : list byte) (out_hex : list ascii) :
  (2 * length bytes < length out_hex)%nat ->
  let r := sfd_hex_encode_lower bytes (length bytes) out_hex in
  take (2 * length bytes) r = hex_of_bytes bytes
  /\ length (hex_of_bytes bytes) = (2 * length bytes)%nat
  /\ Forall (fun c => is_lower_hex c = true) (take (2 * length bytes) r)
  /\ (forall i b, bytes !! i = Some b ->
        r !! (2 * i)%nat = Some (nibble_char (byte_val b / 16))
        /\ r !! (2 * i + 1)%nat = Some (nibble_char (byte_val b mod 16)))
  /\ r !! (2 * length bytes)%nat = Some zero
  /\ drop (2 * length bytes + 1) r = drop (2 * length bytes + 1) out_hex
  /\ length r = length out_hex
  /\ c_string r = string_of_list_ascii (hex_of_bytes bytes).
Proof.
  intros Hlen r. subst r.
  rewrite sfd_hex_encode_lower_spec by exact Hlen.
  pose proof (length_hex_of_bytes bytes) as Hh.
  assert (Htake : take (2 * length bytes)
                     (hex_of_bytes bytes ++ zero :: drop (2 * length bytes + 1) out_hex)
                   = hex_of_bytes bytes)
    by (apply take_app_length'; lia).
  split; [exact Htake|].
  split; [exact Hh|].
  split; [rewrite Htake; apply hex_of_bytes_lower|].
  split.
  { intros i b Hib.
    pose proof (lookup_lt_Some _ _ _ Hib) as Hi.
    rewrite !lookup_app_l by lia.
    rewrite <- (take_drop_middle _ _ _ Hib).
    unfold hex_of_bytes. rewrite fmap_app, fmap_cons, concat_app. cbn [concat].
    fold (hex_of_bytes (take i bytes)).
    assert (Hp : length (hex_of_bytes (take i bytes)) = (2 * i)%nat)
      by (rewrite length_hex_of_bytes, length_take; lia).
    split.
    - rewrite lookup_app_r by lia. rewrite Hp, Nat.sub_diag. reflexivity.
    - rewrite lookup_app_r by lia. rewrite Hp.
      replace (2 * i + 1 - 2 * i)%nat with 1%nat by lia. reflexivity. }
  split.
  { rewrite lookup_app_r by lia. rewrite Hh, Nat.sub_diag. reflexivity. }
  split.
  { rewrite drop_app_add' by lia. reflexivity. }
  split.
  { rewrite length_app, Hh. cbn. rewrite length_drop. lia. }
  apply c_string_terminated, hex_of_bytes_nonzero.
Qed.

(** ** The read loop *)

(** Closes the conjunctions of equations the case analyses of the loop body
    leave behind. *)
Ltac loop_case :=
  repeat split; rewrite <- ?app_assoc, ?app_nil_r;
  try reflexivity; try assumption.

Section read_loop.
Local Open Scope nat_scope.

Variable p : evp_provider.

Lemma sizeof_buf_pos : 0 < sizeof_buf.
Proof. apply Nat.ltb_lt. vm_compute. reflexivity. Qed.

(** The proofs below use nothing else about the size of the buffer. *)
Opaque sizeof_buf.

Lemma fed_app (tr1 tr2 : list event) : fed (tr1 ++ tr2) = fed tr1 ++ fed tr2.
Proof.
  induction tr1 as [|e tr1 IH]; [reflexivity|].
  destruct e as [| | | | |data [|]| |]; cbn [app fed]; rewrite IH; try reflexivity.
  apply app_assoc.
Qed.

Lemma fed_read_events (buf : list byte) : fed (read_events buf) = buf.
Proof. destruct buf; [reflexivity|]. cbn. f_equal. apply app_nil_r. Qed.

Lemma fed_reading (full : list (list byte)) : fed (reading full) = concat full.
Proof.
  unfold reading. induction full as [|c full IH]; [reflexivity|].
  rewrite fmap_cons. cbn [concat]. rewrite fed_app, fed_read_events, IH.
  reflexivity.
Qed.

Lemma reads_app (tr1 tr2 : list event) : reads (tr1 ++ tr2) = reads tr1 ++ reads tr2.
Proof.
  induction tr1 as [|e tr1 IH]; [reflexivity|].
  destruct e; cbn [app reads]; rewrite IH; reflexivity.
Qed.

Lemma reads_read_events (buf : list byte) : reads (read_events buf) = [length buf].
Proof. destruct buf; reflexivity. Qed.

Lemma reads_reading (full : list (list byte)) :
  reads (reading full) = length <$> full.
Proof.
  unfold reading. induction full as [|c full IH]; [reflexivity|].
  rewrite !fmap_cons. cbn [concat]. rewrite reads_app, reads_read_events, IH.
  reflexivity.
Qed.

(** Reading and feeding neither releases anything nor fails. *)
Lemma read_events_quiet (buf : list byte) :
  existsb is_release (read_events buf) = false
  /\ existsb digest_failure (read_events buf) = false.
Proof. destruct buf; split; reflexivity. Qed.

Lemma reading_quiet (full : list (list byte)) :
  existsb is_release (reading full) = false
  /\ existsb digest_failure (reading full) = false.
Proof.
  unfold reading. induction full as [|c full [IHr IHf]]; [split; reflexivity|].
  rewrite fmap_cons. cbn [concat]. rewrite !existsb_app, IHr, IHf.
  destruct (read_events_quiet c) as [-> ->]. split; reflexivity.
Qed.

(** A read of a full buffer. *)
Lemma fread_full (f : FILE) :
  sizeof_buf <= length (pending f) ->
  fread f sizeof_buf
  = (take sizeof_buf (pending f),
     {| pending := drop sizeof_buf (pending f); faulty := faulty f;
        eof_ind := eof_ind f; err_ind := err_ind f |}).
Proof.
  intros Hlen. unfold fread.
  replace (length (take sizeof_buf (pending f)) <? sizeof_buf) with false
    by (symmetry; apply Nat.ltb_ge; rewrite length_take; lia).
  cbn [andb]. rewrite !orb_false_r. reflexivity.
Qed.

(** A short read returns all that was pending and raises one indicator. *)
Lemma fread_short (f : FILE) :
  length (pending f) < sizeof_buf ->
  fread f sizeof_buf
  = (pending f,
     {| pending := []; faulty := faulty f;
        eof_ind := eof_ind f || negb (faulty f);
        err_ind := err_ind f || faulty f |}).
Proof.
  intros Hlen. unfold fread.
  rewrite take_ge, drop_ge by lia.
  replace (length (pending f) <? sizeof_buf) with true
    by (symmetry; apply Nat.ltb_lt; lia).
  reflexivity.
Qed.

(** What one pass through the loop body does, by cases on how it ends. *)
Lemma loop_body_spec (f : FILE) (ctx : EVP_MD_CTX) (cnt : Z) (tr : list event) :
  eof_ind f = false -> err_ind f = false -> (0 <= cnt < UINT64_MOD)%Z ->
  let buf := take sizeof_buf (pending f) in
  match loop_body p f ctx cnt tr with
  | Continue f' ctx' cnt' tr' =>
      length buf = sizeof_buf
      /\ f' = {| pending := drop sizeof_buf (pending f); faulty := faulty f;
                 eof_ind := false; err_ind := false |}
      /\ ctx' = ctx ++ buf
      /\ cnt' = ((cnt + Z.of_nat (length buf)) mod UINT64_MOD)%Z
      /\ tr' = tr ++ read_events buf
  | Exit (Break ctx' cnt' tr') =>
      buf = pending f /\ length buf < sizeof_buf /\ faulty f = false
      /\ ctx' = ctx ++ buf
      /\ cnt' = ((cnt + Z.of_nat (length buf)) mod UINT64_MOD)%Z
      /\ tr' = tr ++ read_events buf
  | Exit (Return rc cnt' tr') =>
      (rc = 2%Z /\ buf = pending f /\ length buf < sizeof_buf
       /\ faulty f = true
       /\ cnt' = ((cnt + Z.of_nat (length buf)) mod UINT64_MOD)%Z
       /\ tr' = tr ++ read_events buf ++ [MdCtxFree; Fclose])
      \/ (rc = 3%Z /\ cnt' = cnt /\ digest_update_ok p ctx buf = false
          /\ tr' = tr ++ [Fread (length buf); DigestUpdate buf false;
                          MdCtxFree; Fclose])
  end.
Proof.
  intros Heof Herr Hcnt buf. subst buf.
  pose proof sizeof_buf_pos as Hpos.
  assert (Hwrap0 : cnt = ((cnt + Z.of_nat 0) mod UINT64_MOD)%Z)
    by (rewrite Z.add_0_r, Z.mod_small; [reflexivity | exact Hcnt]).
  unfold loop_body.
  destruct (le_lt_dec sizeof_buf (length (pending f))) as [Hfull | Hshort].
  - rewrite fread_full by exact Hfull.
    assert (Hlen : length (take sizeof_buf (pending f)) = sizeof_buf)
      by (rewrite length_take; lia).
    rewrite Hlen.
    replace (0 <? sizeof_buf) with true by (symmetry; apply Nat.ltb_lt; lia).
    rewrite Nat.ltb_irrefl.
    unfold EVP_DigestUpdate.
    destruct (digest_update_ok p ctx (take sizeof_buf (pending f))) eqn:Hupd; cbn.
    + rewrite Heof, Herr.
      unfold read_events. rewrite Hlen.
      destruct (take sizeof_buf (pending f)) as [|b rest] eqn:Hbuf;
        [cbn in Hlen; lia|].
      loop_case.
    + right. loop_case.
  - rewrite fread_short by exact Hshort.
    rewrite take_ge by lia.
    replace (length (pending f) <? sizeof_buf) with true
      by (symmetry; apply Nat.ltb_lt; lia).
    unfold feof, ferror. cbn [eof_ind err_ind]. rewrite Heof, Herr. cbn [orb].
    destruct (pending f) as [|b rest] eqn:Hpend.
    + cbn [length Nat.ltb Nat.leb].
      destruct (faulty f); cbn [negb]; [left|]; loop_case.
    + replace (0 <? length (b :: rest)) with true by reflexivity.
      unfold EVP_DigestUpdate.
      destruct (digest_update_ok p ctx (b :: rest)) eqn:Hupd; cbn [negb Z.eqb].
      * destruct (faulty f); cbn [negb]; [left|]; loop_case.
      * right. loop_case.
Qed.

Lemma wrap_add_add (cnt : Z) (a b : nat) :
  ((((cnt + Z.of_nat a) mod UINT64_MOD) + Z.of_nat b) mod UINT64_MOD
   = (cnt + Z.of_nat (a + b)) mod UINT64_MOD)%Z.
Proof.
  rewrite Zplus_mod_idemp_l. f_equal. lia.
Qed.

Lemma wrap_range (z : Z) : (0 <= z mod UINT64_MOD < UINT64_MOD)%Z.
Proof. apply Z.mod_pos_bound. reflexivity. Qed.

Lemma chunked_short (data : list byte) :
  take sizeof_buf data = data -> chunked data [] data [].
Proof.
  intros Htake. unfold chunked. rewrite app_nil_r, Htake.
  repeat split. constructor.
Qed.

Lemma chunked_cut (data : list byte) :
  chunked data [] (take sizeof_buf data) (drop sizeof_buf data).
Proof.
  unfold chunked. rewrite take_drop. cbn [concat app].
  repeat split. constructor.
Qed.

Lemma chunked_cons (data : list byte) (full : list (list byte))
  (last rest : list byte) :
  sizeof_buf <= length data ->
  chunked (drop sizeof_buf data) full last rest ->
  chunked data (take sizeof_buf data :: full) last rest.
Proof.
  intros Hlen (Hdata & Hfull & Hlast). unfold chunked.
  cbn [concat]. rewrite <- app_assoc, <- Hdata, take_drop.
  repeat split; [| exact Hlast].
  constructor; [rewrite length_take; lia | exact Hfull].
Qed.

(** What the loop has done when it is left, whatever the provider does:
    it has read a number of [full] buffers and fed each of them to the
    context in turn; then a [last] read either was short and ended the
    loop at end-of-file or with a read error, after its bytes had been
    fed and counted, or was refused by the digest update. *)
Lemma read_loop_spec (fuel : nat) :
  forall (f : FILE) (ctx : EVP_MD_CTX) (cnt : Z) (tr : list event) (ex : loop_exit),
    eof_ind f = false -> err_ind f = false -> (0 <= cnt < UINT64_MOD)%Z ->
    read_loop fuel p f ctx cnt tr = Some ex ->
    exists (full : list (list byte)) (last rest : list byte),
      chunked (pending f) full last rest
      /\ match ex with
         | Break ctx' cnt' tr' =>
             rest = [] /\ length last < sizeof_buf /\ faulty f = false
             /\ ctx' = ctx ++ pending f
             /\ cnt' = ((cnt + Z.of_nat (length (pending f))) mod UINT64_MOD)%Z
             /\ tr' = tr ++ reading full ++ read_events last
         | Return rc cnt' tr' =>
             (rc = 2%Z /\ rest = [] /\ length last < sizeof_buf
              /\ faulty f = true
              /\ cnt' = ((cnt + Z.of_nat (length (pending f))) mod UINT64_MOD)%Z
              /\ tr' = tr ++ reading full ++ read_events last
                         ++ [MdCtxFree; Fclose])
             \/ (rc = 3%Z
                 /\ digest_update_ok p (ctx ++ concat full) last = false
                 /\ cnt' = ((cnt + Z.of_nat (length (concat full)))
                            mod UINT64_MOD)%Z
                 /\ tr' = tr ++ reading full
                            ++ [Fread (length last); DigestUpdate last false;
                                MdCtxFree; Fclose])
         end.
Proof.
  induction fuel as [|fuel IH]; intros f ctx cnt tr ex Heof Herr Hcnt Hrun;
    [discriminate|].
  cbn [read_loop] in Hrun.
  pose proof (loop_body_spec f ctx cnt tr Heof Herr Hcnt) as Hbody.
  cbv zeta in Hbody.
  destruct (loop_body p f ctx cnt tr)
    as [[ctx' cnt' tr' | rc cnt' tr'] | f' ctx' cnt' tr'].
  - injection Hrun as <-.
    destruct Hbody as (Hbuf & Hlt & Hf & -> & -> & ->). rewrite Hbuf in *.
    exists [], (pending f), [].
    split; [apply chunked_short; exact Hbuf | loop_case].
  - injection Hrun as <-.
    destruct Hbody as [(-> & Hbuf & Hlt & Hf & -> & ->) | (-> & -> & Hupd & ->)].
    + rewrite Hbuf in *.
      exists [], (pending f), [].
      split; [apply chunked_short; exact Hbuf | left; loop_case].
    + exists [], (take sizeof_buf (pending f)), (drop sizeof_buf (pending f)).
      split; [apply chunked_cut|]. right. cbn [concat length].
      rewrite Z.add_0_r, Z.mod_small by exact Hcnt. loop_case.
  - destruct Hbody as (Hlen & -> & -> & -> & ->).
    apply IH in Hrun; [| reflexivity | reflexivity | apply wrap_range].
    destruct Hrun as (full & last & rest & Hch & Hex).
    cbn [pending faulty] in *.
    assert (Hle : sizeof_buf <= length (pending f))
      by (rewrite length_take in Hlen; lia).
    exists (take sizeof_buf (pending f) :: full), last, rest.
    split; [apply chunked_cons; assumption|].
    assert (Hsum : length (take sizeof_buf (pending f))
                   + length (drop sizeof_buf (pending f)) = length (pending f))
      by (rewrite <- length_app, take_drop; reflexivity).
    change (reading (take sizeof_buf (pending f) :: full))
      with (read_events (take sizeof_buf (pending f)) ++ reading full).
    cbn [concat]. rewrite length_app.
    rewrite !wrap_add_add in Hex. rewrite Hsum in Hex.
    rewrite <- !app_assoc in Hex. rewrite take_drop in Hex.
    destruct ex as [ctx' cnt' tr' | rc cnt' tr'].
    + destruct Hex as (-> & Hlt & Hf & -> & -> & ->). loop_case.
    + destruct Hex as [(-> & -> & Hlt & Hf & -> & ->) | (-> & Hupd & -> & ->)];
        [left | right]; loop_case.
Qed.

(** The loop is left once the stream is exhausted: fuel for one more
    iteration than there are full buffers is enough. *)
Lemma read_loop_terminates (fuel : nat) :
  forall (f : FILE) (ctx : EVP_MD_CTX) (cnt : Z) (tr : list event),
    eof_ind f = false -> err_ind f = false -> (0 <= cnt < UINT64_MOD)%Z ->
    enough_fuel fuel (pending f) ->
    exists ex, read_loop fuel p f ctx cnt tr = Some ex.
Proof.
  unfold enough_fuel.
  induction fuel as [|fuel IH]; intros f ctx cnt tr Heof Herr Hcnt Hfuel; [lia|].
  cbn [read_loop].
  pose proof (loop_body_spec f ctx cnt tr Heof Herr Hcnt) as Hbody.
  cbv zeta in Hbody.
  destruct (loop_body p f ctx cnt tr) as [ex | f' ctx' cnt' tr']; [eauto|].
  destruct Hbody as (Hlen & -> & -> & -> & ->).
  apply IH; [reflexivity | reflexivity | apply wrap_range |].
  cbn [pending]. rewrite length_drop. rewrite length_take in Hlen.
  pose proof sizeof_buf_pos as Hpos.
  assert (Hdiv : length (pending f) / sizeof_buf
                 = S ((length (pending f) - sizeof_buf) / sizeof_buf)).
  { replace (length (pending f)) with
      ((length (pending f) - sizeof_buf) + 1 * sizeof_buf) at 1 by lia.
    rewrite Nat.div_add by lia. lia. }
  lia.
Qed.

End read_loop.

(** ** The hasher as a whole *)

Section hasher.
Variable fs : string -> option disk_file.
Variable p : evp_provider.

(** A NULL argument ends the call at line 20. *)
Lemma sfd_sha256_file_null (fuel : nat) (path : option string)
  (out_hash : option (list byte)) (out_bytes : option Z) :
  path = None \/ out_hash = None \/ out_bytes = None ->
  sfd_sha256_file fuel fs p path out_hash out_bytes
  = Some {| rc := 1; hash_after := out_hash; bytes_after := out_bytes;
            trace := [] |}.
Proof.
  intros [-> | [-> | ->]]; [| destruct path | destruct path, out_hash];
    reflexivity.
Qed.

(** A file that cannot be opened ends the call at line 27. *)
Lemma sfd_sha256_file_not_opened (fuel : nat) (path : string)
  (hash : list byte) (b : Z) :
  fs path = None ->
  sfd_sha256_file fuel fs p (Some path) (Some hash) (Some b)
  = Some {| rc := 2; hash_after := Some hash; bytes_after := Some 0%Z;
            trace := [Fopen path false] |}.
Proof.
  intros Hfs. unfold sfd_sha256_file, fopen. rewrite Hfs. reflexivity.
Qed.

(** Every run on a file that opens takes one of the seven exit paths. *)
Lemma sfd_sha256_file_exit_path (fuel : nat) (path : string) (d : disk_file)
  (hash : list byte) (b : Z) (r : hash_result) :
  fs path = Some d ->
  sfd_sha256_file fuel fs p (Some path) (Some hash) (Some b) = Some r ->
  exit_path p path d hash r.
Proof.
  intros Hfs Hrun. unfold sfd_sha256_file, fopen in Hrun. rewrite Hfs in Hrun.
  unfold EVP_MD_CTX_new, EVP_DigestInit_ex in Hrun.
  destruct (ctx_new_ok p) eqn:Hnew;
    [| injection Hrun as <-; apply ctx_new_failed; exact Hnew].
  destruct (digest_init_ok p) eqn:Hinit; cbn [negb Z.eqb] in Hrun;
    [| injection Hrun as <-; apply init_failed; assumption].
  destruct (read_loop _ _ _ _ _ _) as [ex|] eqn:Hloop; [|discriminate].
  apply read_loop_spec in Hloop;
    [| reflexivity | reflexivity | split; [lia | reflexivity]].
  cbn [pending faulty] in Hloop.
  destruct Hloop as (full & last & rest & Hch & Hex).
  rewrite Z.add_0_l in Hex. cbn [app] in Hex.
  destruct ex as [ctx' cnt' tr' | rc' cnt' tr'].
  - destruct Hex as (-> & Hlt & Hf & -> & -> & ->).
    unfold EVP_DigestFinal_ex in Hrun.
    destruct (digest_final p (delivered d)) as [md|] eqn:Hfin;
      cbn [negb Z.eqb] in Hrun.
    + destruct (length md =? SFD_SHA256_LEN)%nat eqn:Hmd; cbn [negb] in Hrun;
        injection Hrun as <-; rewrite <- !app_assoc.
      * apply Nat.eqb_eq in Hmd.
        apply (success p path d hash full last md); assumption.
      * apply Nat.eqb_neq in Hmd.
        apply (bad_length p path d hash full last md); assumption.
    + injection Hrun as <-. rewrite <- !app_assoc.
      apply (final_failed p path d hash full last); assumption.
  - destruct Hex as [(-> & -> & Hlt & Hf & -> & ->) | (-> & Hupd & -> & ->)];
      injection Hrun as <-.
    + apply (read_failed p path d hash full last); assumption.
    + rewrite Z.add_0_l.
      apply (update_failed p path d hash full last rest); assumption.
Qed.

(** With enough fuel the call returns. *)
Lemma sfd_sha256_file_returns (fuel : nat) (path : option string)
  (out_hash : option (list byte)) (out_bytes : option Z) :
  (forall s d, path = Some s -> fs s = Some d -> enough_fuel fuel (delivered d)) ->
  exists r, sfd_sha256_file fuel fs p path out_hash out_bytes = Some r.
Proof.
  intros Hfuel.
  destruct path as [path|]; [| eexists; apply sfd_sha256_file_null; auto].
  destruct out_hash as [hash|]; [| eexists; apply sfd_sha256_file_null; auto].
  destruct out_bytes as [b|]; [| eexists; apply sfd_sha256_file_null; auto].
  destruct (fs path) as [d|] eqn:Hfs;
    [| eexists; apply sfd_sha256_file_not_opened; exact Hfs].
  specialize (Hfuel path d eq_refl Hfs).
  unfold sfd_sha256_file, fopen. rewrite Hfs.
  unfold EVP_MD_CTX_new, EVP_DigestInit_ex.
  destruct (ctx_new_ok p); [| eauto].
  destruct (digest_init_ok p); cbn [negb Z.eqb]; [| eauto].
  match goal with
  | |- context [read_loop fuel p ?f ?c ?n ?t] =>
      destruct (read_loop_terminates p fuel f c n t) as [ex ->];
        [reflexivity | reflexivity | split; [lia | reflexivity] | exact Hfuel |]
  end.
  destruct ex as [ctx' cnt' tr' | rc' cnt' tr']; [| eauto].
  destruct (EVP_DigestFinal_ex p ctx') as [r md].
  destruct (negb (r =? 1)%Z); [eauto|].
  destruct (negb (length md =? SFD_SHA256_LEN)%nat); eauto.
Qed.

End hasher.

(** ** The reference digest has 32 bytes *)

Section sha256_length.
Local Open Scope nat_scope.

Lemma round_length (st : list Z) (kw : Z * Z) :
  length st = 8 -> length (SHA256.round st kw) = 8.
Proof.
  intros Hlen.
  destruct st as [|a [|b [|c [|d [|e [|f [|g [|h [|x st]]]]]]]]];
    try discriminate; reflexivity.
Qed.

Lemma rounds_length (kws : list (Z * Z)) :
  forall st, length st = 8 -> length (foldl SHA256.round st kws) = 8.
Proof.
  induction kws as [|kw kws IH]; intros st Hlen; [exact Hlen|].
  cbn [foldl]. apply IH, round_length, Hlen.
Qed.

Lemma compress_length (h : list Z) (block : list byte) :
  length h = 8 -> length (SHA256.compress h block) = 8.
Proof.
  intros Hlen. unfold SHA256.compress.
  rewrite length_zip_with, rounds_length by exact Hlen. lia.
Qed.

Lemma blocks_length (n : nat) :
  forall (h : list Z) (bs : list byte),
    length h = 8 -> length (SHA256.blocks n h bs) = 8.
Proof.
  induction n as [|n IH]; intros h bs Hlen; [exact Hlen|].
  cbn [SHA256.blocks]. apply IH, compress_length, Hlen.
Qed.

Lemma digest_length (msg : list byte) : length (SHA256.digest msg) = 32.
Proof.
  unfold SHA256.digest.
  pose proof (blocks_length (length (SHA256.pad msg) / 64) SHA256.H0
                (SHA256.pad msg) eq_refl) as Hlen.
  destruct (SHA256.blocks _ _ _)
    as [|a [|b [|c [|d [|e [|f [|g [|h [|x st]]]]]]]]];
    try discriminate; reflexivity.
Qed.

End sha256_length.

(** ** Properties of the hasher *)

Lemma delivered_no_fault (d : disk_file) :
  fault_hit d = false -> delivered d = content d.
Proof.
  unfold fault_hit, delivered. destruct (read_fault d) as [k|]; [|reflexivity].
  intros Hk. apply bool_decide_eq_false in Hk. apply take_ge. lia.
Qed.

Lemma openssl_computes_sha256 : computes_sha256 openssl.
Proof. intros msg md Hmd _. injection Hmd as <-. reflexivity. Qed.

Lemma chunked_all (data : list byte) (full : list (list byte)) (last : list byte) :
  chunked data full last [] -> data = concat full ++ last.
Proof. intros (-> & _ & _). rewrite app_nil_r. reflexivity. Qed.

(** What was fed to the context on the paths that read the stream to its
    end. *)
Lemma fed_read_to_end (path : string) (full : list (list byte)) (last : list byte)
  (tail : list event) :
  fed tail = [] ->
  fed (opened path ++ reading full ++ read_events last ++ tail) = concat full ++ last.
Proof.
  intros Htail.
  rewrite !fed_app, fed_reading, fed_read_events, Htail, app_nil_r. reflexivity.
Qed.

(** C1: if [sfd_sha256_file] returns 0 on the file [d] found at [path],
    then the byte count it stored is the size of the file and the digest it
    stored is the SHA-256 of the file's bytes, fed to the digest in read
    order.  The digest provider is one whose 32-byte results are SHA-256
    digests, and the size of the file fits the 64-bit counter. *)
Theorem sfd_sha256_file_success (fuel : nat) (fs : string -> option disk_file)
  (p : evp_provider) (path : string) (d : disk_file) (hash : list byte) (b : Z)
  (r : hash_result) :
  computes_sha256 p ->
  fs path = Some d ->
  (Z.of_nat (length (content d)) < UINT64_MOD)%Z ->
  sfd_sha256_file fuel fs p (Some path) (Some hash) (Some b) = Some r ->
  rc r = 0%Z ->
  bytes_after r = Some (Z.of_nat (length (content d)))
  /\ hash_after r = Some (SHA256.digest (content d) ++ drop SFD_SHA256_LEN hash)
  /\ fed (trace r) = content d.
Proof.
  intros Hp Hfs Hsize Hrun Hrc.
  apply (sfd_sha256_file_exit_path fs p fuel path d hash b r Hfs) in Hrun.
  destruct Hrun as [| | | | | | full last md Hnew Hinit Hch Hlt Hf Hfin Hmd];
    cbn [rc] in Hrc; try discriminate.
  cbn [bytes_after hash_after trace].
  rewrite (delivered_no_fault d Hf) in *.
  split; [rewrite Z.mod_small by lia; reflexivity|].
  split.
  - unfold memcpy. rewrite take_ge by lia.
    rewrite (Hp _ _ Hfin Hmd). reflexivity.
  - rewrite fed_read_to_end by reflexivity. symmetry. apply chunked_all, Hch.
Qed.

(** With the provider that works and a device that does not fail, the call
    succeeds on every file. *)
Lemma sfd_sha256_file_openssl (fuel : nat) (fs : string -> option disk_file)
  (path : string) (d : disk_file) (hash : list byte) (b : Z) :
  fs path = Some d -> fault_hit d = false -> enough_fuel fuel (content d) ->
  exists r,
    sfd_sha256_file fuel fs openssl (Some path) (Some hash) (Some b) = Some r
    /\ rc r = 0%Z
    /\ hash_after r
       = Some (SHA256.digest (content d) ++ drop SFD_SHA256_LEN hash)
    /\ bytes_after r = Some (Z.of_nat (length (content d)) mod UINT64_MOD)%Z.
Proof.
  intros Hfs Hfault Hfuel.
  pose proof (delivered_no_fault d Hfault) as Hdel.
  destruct (sfd_sha256_file_returns fs openssl fuel (Some path) (Some hash) (Some b))
    as [r Hrun].
  { intros s d' [= <-] Hd'. rewrite Hfs in Hd'. injection Hd' as <-.
    rewrite Hdel. exact Hfuel. }
  exists r. split; [exact Hrun|].
  apply (sfd_sha256_file_exit_path fs openssl fuel path d hash b r Hfs) in Hrun.
  destruct Hrun as [Hnew | Hnew Hinit
                    | full last rest Hnew Hinit Hch Hupd
                    | full last Hnew Hinit Hch Hlt Hf
                    | full last Hnew Hinit Hch Hlt Hf Hfin
                    | full last md Hnew Hinit Hch Hlt Hf Hfin Hmd
                    | full last md Hnew Hinit Hch Hlt Hf Hfin Hmd];
    cbn [openssl ctx_new_ok digest_init_ok digest_update_ok digest_final] in *;
    try congruence.
  - assert (Hmd' : md = SHA256.digest (delivered d)) by congruence.
    rewrite Hmd', digest_length in Hmd. contradiction.
  - assert (Hmd' : md = SHA256.digest (delivered d)) by congruence.
    cbn [rc hash_after bytes_after]. rewrite Hmd', Hdel. unfold memcpy.
    rewrite take_ge by (rewrite digest_length; reflexivity).
    repeat split.
Qed.

(** Whatever the exit path, the bytes fed to the context are the first
    bytes the stream delivered, and the counter is their number. *)
Lemma exit_path_accounting (p : evp_provider) (path : string) (d : disk_file)
  (hash : list byte) (r : hash_result) :
  exit_path p path d hash r ->
  (exists k, fed (trace r) = take k (delivered d))
  /\ bytes_after r = Some (Z.of_nat (length (fed (trace r))) mod UINT64_MOD)%Z.
Proof.
  intros Hpath.
  destruct Hpath as [Hnew | Hnew Hinit
                     | full last rest Hnew Hinit Hch Hupd
                     | full last Hnew Hinit Hch Hlt Hf
                     | full last Hnew Hinit Hch Hlt Hf Hfin
                     | full last md Hnew Hinit Hch Hlt Hf Hfin Hmd
                     | full last md Hnew Hinit Hch Hlt Hf Hfin Hmd];
    cbn [trace bytes_after].
  - split; [exists 0%nat; reflexivity | reflexivity].
  - split; [exists 0%nat; reflexivity | reflexivity].
  - assert (Hfed : fed (opened path ++ reading full
                          ++ [Fread (length last); DigestUpdate last false;
                              MdCtxFree; Fclose]) = concat full).
    { rewrite !fed_app, fed_reading. cbn [fed opened app]. apply app_nil_r. }
    rewrite Hfed. split; [|reflexivity].
    exists (length (concat full)). destruct Hch as (-> & _ & _).
    rewrite take_app_length. reflexivity.
  - rewrite fed_read_to_end by reflexivity.
    rewrite <- (chunked_all _ _ _ Hch). split; [|reflexivity].
    exists (length (delivered d)). rewrite take_ge by lia. reflexivity.
  - rewrite fed_read_to_end by reflexivity.
    rewrite <- (chunked_all _ _ _ Hch). split; [|reflexivity].
    exists (length (delivered d)). rewrite take_ge by lia. reflexivity.
  - rewrite fed_read_to_end by reflexivity.
    rewrite <- (chunked_all _ _ _ Hch). split; [|reflexivity].
    exists (length (delivered d)). rewrite take_ge by lia. reflexivity.
  - rewrite fed_read_to_end by reflexivity.
    rewrite <- (chunked_all _ _ _ Hch). split; [|reflexivity].
    exists (length (delivered d)). rewrite take_ge by lia. reflexivity.
Qed.

(** ** The digest context along a run *)

Section digest_context.
Local Open Scope nat_scope.

Variable p : evp_provider.

Opaque sizeof_buf.

Lemma ctx_after_app (tr1 tr2 : list event) :
  forall ctx,
    ctx_after p ctx (tr1 ++ tr2)
    = match ctx_after p ctx tr1 with
      | Some ctx' => ctx_after p ctx' tr2
      | None => None
      end.
Proof.
  induction tr1 as [|e tr1 IH]; intros ctx; [reflexivity|].
  destruct e as [| | | |[|]|data ok|ok md_len|]; cbn [app ctx_after]; auto.
  - destruct (Bool.eqb ok (digest_update_ok p ctx data)); auto.
  - destruct (digest_final p ctx) as [md|];
      [destruct (ok && (md_len =? length md)) | destruct (negb ok && (md_len =? 0))];
      auto.
Qed.

(** One pass through the loop body keeps the context variable in step with
    the actions recorded: it holds what the updates so far absorbed, and
    each update was applied to it as it then was. *)
Lemma loop_body_ctx (f : FILE) (ctx : EVP_MD_CTX) (cnt : Z) (tr : list event) :
  ctx_after p [] tr = Some ctx -> fed tr = ctx ->
  match loop_body p f ctx cnt tr with
  | Exit (Break ctx' _ tr') => ctx_after p [] tr' = Some ctx' /\ fed tr' = ctx'
  | Exit (Return _ _ tr') => ctx_after p [] tr' = Some (fed tr')
  | Continue _ ctx' _ tr' => ctx_after p [] tr' = Some ctx' /\ fed tr' = ctx'
  end.
Proof.
  intros Hctx Hfed. unfold loop_body, fread.
  set (buf := take sizeof_buf (pending f)).
  assert (Hread : ctx_after p [] (tr ++ [Fread (length buf)]) = Some ctx
                  /\ fed (tr ++ [Fread (length buf)]) = ctx).
  { rewrite ctx_after_app, Hctx, fed_app, Hfed. cbn [ctx_after fed].
    rewrite app_nil_r. split; reflexivity. }
  assert (Hfree : ctx_after p [] ((tr ++ [Fread (length buf)]) ++ [MdCtxFree; Fclose])
                  = Some (fed ((tr ++ [Fread (length buf)]) ++ [MdCtxFree; Fclose]))).
  { destruct Hread as [Hc Hf].
    rewrite ctx_after_app, Hc, fed_app, Hf. cbn [ctx_after fed].
    rewrite app_nil_r. reflexivity. }
  destruct (0 <? length buf).
  - unfold EVP_DigestUpdate.
    destruct (digest_update_ok p ctx buf) eqn:Hupd; cbn [negb Z.eqb Pos.eqb].
    + assert (Hgo : ctx_after p [] ((tr ++ [Fread (length buf)])
                                      ++ [DigestUpdate buf true]) = Some (ctx ++ buf)
                    /\ fed ((tr ++ [Fread (length buf)]) ++ [DigestUpdate buf true])
                       = ctx ++ buf).
      { destruct Hread as [Hc Hf].
        rewrite ctx_after_app, Hc, fed_app, Hf. cbn [ctx_after fed].
        rewrite Hupd, app_nil_r. split; reflexivity. }
      destruct (length buf <? sizeof_buf); [|exact Hgo].
      destruct (feof _); [exact Hgo|].
      destruct (ferror _); [|exact Hgo].
      destruct Hgo as [Hc Hf]. cbv beta iota.
      rewrite ctx_after_app, Hc, fed_app, Hf. cbn [ctx_after fed].
      rewrite app_nil_r. reflexivity.
    + destruct Hread as [Hc Hf]. cbv beta iota.
      rewrite ctx_after_app, Hc, fed_app, Hf. cbn [ctx_after fed].
      rewrite Hupd, app_nil_r. reflexivity.
  - destruct (length buf <? sizeof_buf); [|exact Hread].
    destruct (feof _); [exact Hread|].
    destruct (ferror _); [exact Hfree | exact Hread].
Qed.

Lemma read_loop_ctx (fuel : nat) :
  forall (f : FILE) (ctx : EVP_MD_CTX) (cnt : Z) (tr : list event) (ex : loop_exit),
    ctx_after p [] tr = Some ctx -> fed tr = ctx ->
    read_loop fuel p f ctx cnt tr = Some ex ->
    ctx_after p [] (exit_trace ex) = Some (fed (exit_trace ex))
    /\ match ex with
       | Break ctx' _ tr' => fed tr' = ctx'
       | Return _ _ _ => True
       end.
Proof.
  induction fuel as [|fuel IH]; intros f ctx cnt tr ex Hctx Hfed Hrun;
    [discriminate|].
  cbn [read_loop] in Hrun.
  pose proof (loop_body_ctx f ctx cnt tr Hctx Hfed) as Hbody.
  destruct (loop_body p f ctx cnt tr)
    as [[ctx' cnt' tr' | rc' cnt' tr'] | f' ctx' cnt' tr'].
  - injection Hrun as <-. destruct Hbody as [Hc Hf]. cbn [exit_trace].
    rewrite Hf. split; [exact Hc | reflexivity].
  - injection Hrun as <-. split; [exact Hbody | exact I].
  - destruct Hbody as [Hc Hf]. exact (IH f' ctx' cnt' tr' ex Hc Hf Hrun).
Qed.

(** Actions after which the context holds what it held before. *)
Lemma ctx_after_before (before tail : list event) (ctx : list byte) :
  (forall c, ctx_after p c tail = Some c \/ ctx_after p c tail = None) ->
  ctx_after p [] (before ++ tail) = Some ctx ->
  ctx_after p [] before = Some ctx.
Proof.
  intros Htail. rewrite ctx_after_app.
  destruct (ctx_after p [] before) as [c|]; [|discriminate].
  destruct (Htail c) as [-> | ->]; congruence.
Qed.

Lemma ctx_after_release (fin : list event) :
  fin = [] \/ (exists ok md_len, fin = [DigestFinal ok md_len]) ->
  forall c, ctx_after p c (fin ++ [MdCtxFree; Fclose]) = Some c
            \/ ctx_after p c (fin ++ [MdCtxFree; Fclose]) = None.
Proof.
  intros [-> | (ok & md_len & ->)] c; cbn [app ctx_after]; [auto|].
  destruct (digest_final p c) as [md|];
    [destruct (ok && (md_len =? length md)) | destruct (negb ok && (md_len =? 0))];
    auto.
Qed.

End digest_context.

(** In the trace of every call, each update and the finalisation were
    applied to the context that held what the earlier updates absorbed. *)
Lemma sfd_sha256_file_ctx (fuel : nat) (fs : string -> option disk_file)
  (p : evp_provider) (path : option string) (out_hash : option (list byte))
  (out_bytes : option Z) (r : hash_result) :
  sfd_sha256_file fuel fs p path out_hash out_bytes = Some r ->
  ctx_after p [] (trace r) = Some (fed (trace r)).
Proof.
  intros Hrun. unfold sfd_sha256_file in Hrun.
  destruct path as [path|], out_hash as [hash|], out_bytes as [b|];
    try (injection Hrun as <-; reflexivity).
  destruct (fopen fs path) as [f|]; [| injection Hrun as <-; reflexivity].
  unfold EVP_MD_CTX_new, EVP_DigestInit_ex in Hrun.
  destruct (ctx_new_ok p); [| injection Hrun as <-; reflexivity].
  destruct (digest_init_ok p); cbn [negb Z.eqb] in Hrun;
    [| injection Hrun as <-; reflexivity].
  destruct (read_loop _ _ _ _ _ _) as [ex|] eqn:Hloop; [|discriminate].
  apply read_loop_ctx in Hloop; [| reflexivity | reflexivity].
  destruct Hloop as [Hctx Hfed].
  destruct ex as [ctx' cnt' tr' | rc' cnt' tr']; cbn [exit_trace] in Hctx;
    [| injection Hrun as <-; exact Hctx].
  unfold EVP_DigestFinal_ex in Hrun.
  destruct (digest_final p ctx') as [md|] eqn:Hfin; cbn [negb Z.eqb] in Hrun.
  - assert (Hall : ctx_after p [] (tr' ++ [DigestFinal true (length md);
                                            MdCtxFree; Fclose])
                   = Some (fed (tr' ++ [DigestFinal true (length md);
                                        MdCtxFree; Fclose]))).
    { rewrite ctx_after_app, Hctx, fed_app. cbn [ctx_after fed].
      rewrite Hfed, Hfin, Nat.eqb_refl, app_nil_r. reflexivity. }
    destruct (negb (length md =? SFD_SHA256_LEN)%nat);
      injection Hrun as <-; exact Hall.
  - injection Hrun as <-. cbn [trace].
    rewrite ctx_after_app, Hctx, fed_app. cbn [ctx_after fed].
    rewrite Hfed, Hfin, app_nil_r. reflexivity.
Qed.

(** The context before the final actions of a run that read the stream to
    its end. *)
Lemma ctx_after_read_to_end (p : evp_provider) (path : string)
  (full : list (list byte)) (last : list byte) (fin : list event) :
  fin = [] \/ (exists ok md_len, fin = [DigestFinal ok md_len]) ->
  ctx_after p [] (opened path ++ reading full ++ read_events last
                    ++ fin ++ [MdCtxFree; Fclose])
  = Some (fed (opened path ++ reading full ++ read_events last
                 ++ fin ++ [MdCtxFree; Fclose])) ->
  ctx_after p [] (opened path ++ reading full ++ read_events last)
  = Some (concat full ++ last).
Proof.
  intros Hfin Hall.
  rewrite fed_read_to_end in Hall
    by (destruct Hfin as [-> | (ok & md_len & ->)]; reflexivity).
  rewrite !app_assoc in Hall. rewrite <- (app_assoc _ fin) in Hall.
  apply ctx_after_before in Hall; [| apply ctx_after_release, Hfin].
  rewrite <- !app_assoc in Hall. exact Hall.
Qed.

(** C6: the staging buffer has 65,536 bytes.  On every run the bytes fed to
    the digest context are, in order, the first bytes the stream delivered,
    the counter is their number (as a 64-bit value), and every update and
    the finalisation were applied to the context holding exactly what the
    earlier updates had absorbed.  Unless the context could not be made
    ready, in which case nothing is read, the actions after opening are one
    read and one update per full buffer, the update absorbing exactly the
    bytes just read, and then one more read.  Either the update of the
    bytes of that read is refused, and the call returns 3 at once with the
    full buffers fed and counted; or that read is short, its bytes, if any,
    are absorbed and counted too, so that the context then holds all the
    bytes delivered, and only then the call ends: with the I/O error code
    when the device failed in the middle of that read, and otherwise with
    the finalisation of that context, whether it succeeds or fails. *)
Theorem read_loop_feeds_what_it_reads (fuel : nat) (fs : string -> option disk_file)
  (p : evp_provider) (path : string) (d : disk_file) (hash : list byte) (b : Z)
  (r : hash_result) :
  fs path = Some d ->
  sfd_sha256_file fuel fs p (Some path) (Some hash) (Some b) = Some r ->
  Z.of_nat sizeof_buf = 65536%Z
  /\ (exists k, fed (trace r) = take k (delivered d))
  /\ bytes_after r = Some (Z.of_nat (length (fed (trace r))) mod UINT64_MOD)%Z
  /\ ctx_after p [] (trace r) = Some (fed (trace r))
  /\ ((rc r = 3%Z /\ reads (trace r) = []
       /\ (ctx_new_ok p = false \/ digest_init_ok p = false))
      \/ exists (full : list (list byte)) (last rest : list byte),
           chunked (delivered d) full last rest
           /\ ((digest_update_ok p (concat full) last = false
                /\ rc r = 3%Z
                /\ trace r = opened path ++ reading full
                               ++ [Fread (length last); DigestUpdate last false;
                                   MdCtxFree; Fclose]
                /\ fed (trace r) = concat full
                /\ bytes_after r
                   = Some (Z.of_nat (length (concat full)) mod UINT64_MOD)%Z)
               \/ (rest = [] /\ (length last < sizeof_buf)%nat
                   /\ trace r = opened path ++ reading full ++ read_events last
                                  ++ (if fault_hit d then []
                                      else [final_event p (delivered d)])
                                  ++ [MdCtxFree; Fclose]
                   /\ ctx_after p [] (opened path ++ reading full ++ read_events last)
                      = Some (delivered d)
                   /\ fed (trace r) = delivered d
                   /\ reads (trace r) = (length <$> full) ++ [length last]
                   /\ bytes_after r
                      = Some (Z.of_nat (length (delivered d)) mod UINT64_MOD)%Z
                   /\ (fault_hit d = true -> rc r = 2%Z)))).
Proof.
  intros Hfs Hrun.
  split; [vm_compute; reflexivity|].
  pose proof (sfd_sha256_file_ctx fuel fs p _ _ _ r Hrun) as Hctx.
  apply (sfd_sha256_file_exit_path fs p fuel path d hash b r Hfs) in Hrun.
  destruct (exit_path_accounting p path d hash r Hrun) as [Hprefix Hcount].
  split; [exact Hprefix|]. split; [exact Hcount|].
  split; [exact Hctx|].
  assert (Hend : forall full last (fin : list event),
            chunked (delivered d) full last [] ->
            fin = [] \/ (exists ok md_len, fin = [DigestFinal ok md_len]) ->
            trace r = opened path ++ reading full ++ read_events last
                        ++ fin ++ [MdCtxFree; Fclose] ->
            ctx_after p [] (opened path ++ reading full ++ read_events last)
            = Some (delivered d)
            /\ fed (trace r) = delivered d
            /\ reads (trace r) = (length <$> full) ++ [length last]).
  { intros full last fin Hch Hfin Htr. rewrite Htr in Hctx |- *.
    rewrite (chunked_all _ _ _ Hch).
    split; [exact (ctx_after_read_to_end p path full last fin Hfin Hctx)|].
    split.
    - apply fed_read_to_end.
      destruct Hfin as [-> | (ok & md_len & ->)]; reflexivity.
    - rewrite !reads_app, reads_reading, reads_read_events.
      destruct Hfin as [-> | (ok & md_len & ->)]; reflexivity. }
  destruct Hrun as [Hnew | Hnew Hinit
                    | full last rest Hnew Hinit Hch Hupd
                    | full last Hnew Hinit Hch Hlt Hf
                    | full last Hnew Hinit Hch Hlt Hf Hfin
                    | full last md Hnew Hinit Hch Hlt Hf Hfin Hmd
                    | full last md Hnew Hinit Hch Hlt Hf Hfin Hmd];
    cbn [rc trace bytes_after] in *.
  - left. auto.
  - left. auto.
  - right. exists full, last, rest. split; [exact Hch|]. left.
    split; [exact Hupd|]. split; [reflexivity|]. split; [reflexivity|].
    split; [| reflexivity].
    rewrite !fed_app, fed_reading. cbn [fed opened app]. apply app_nil_r.
  - right. exists full, last, []. split; [exact Hch|]. right.
    destruct (Hend full last [] Hch (or_introl eq_refl) eq_refl)
      as (Hc & Hf' & Hr).
    rewrite Hf. repeat split; auto.
  - right. exists full, last, []. split; [exact Hch|]. right.
    destruct (Hend full last [DigestFinal false 0] Hch
                (or_intror (ex_intro _ false (ex_intro _ 0%nat eq_refl))) eq_refl)
      as (Hc & Hf' & Hr).
    unfold final_event. rewrite Hf, Hfin. repeat split; auto; congruence.
  - right. exists full, last, []. split; [exact Hch|]. right.
    destruct (Hend full last [DigestFinal true (length md)] Hch
                (or_intror (ex_intro _ true (ex_intro _ (length md) eq_refl)))
                eq_refl)
      as (Hc & Hf' & Hr).
    unfold final_event. rewrite Hf, Hfin. repeat split; auto; congruence.
  - right. exists full, last, []. split; [exact Hch|]. right.
    destruct (Hend full last [DigestFinal true (length md)] Hch
                (or_intror (ex_intro _ true (ex_intro _ (length md) eq_refl)))
                eq_refl)
      as (Hc & Hf' & Hr).
    unfold final_event. rewrite Hf, Hfin. repeat split; auto; congruence.
Qed.

(** On the paths that read the stream to its end, nothing before the final
    actions releases a resource or reports a digest failure. *)
Lemma quiet_until_tail (path : string) (full : list (list byte)) (last : list byte) :
  existsb is_release (opened path ++ reading full ++ read_events last) = false
  /\ existsb digest_failure (opened path ++ reading full ++ read_events last) = false.
Proof.
  rewrite !existsb_app.
  destruct (reading_quiet full) as [-> ->].
  destruct (read_events_quiet last) as [-> ->].
  split; reflexivity.
Qed.

Lemma quiet_until_update (path : string) (full : list (list byte)) :
  existsb is_release (opened path ++ reading full) = false.
Proof.
  rewrite existsb_app. destruct (reading_quiet full) as [-> _]. reflexivity.
Qed.

(** Finds the digest failure among the final actions of a trace. *)
Ltac failure_in_tail :=
  rewrite ?app_assoc; rewrite existsb_app;
  apply orb_true_iff; right; cbn [existsb digest_failure orb];
  try reflexivity.

(** C8: on a file that opens, the call returns, and each failure of the
    digest primitive makes it return 3: a context that cannot be created, a
    failed initialisation, a failed update, a failed finalisation, and a
    finalisation that yields other than 32 bytes.  Conversely 3 is
    returned only when the trace contains such a failure. *)
Theorem digest_failures_are_hashing_errors (fuel : nat)
  (fs : string -> option disk_file) (p : evp_provider) (path : string)
  (d : disk_file) (hash : list byte) (b : Z) :
  fs path = Some d ->
  enough_fuel fuel (delivered d) ->
  exists r,
    sfd_sha256_file fuel fs p (Some path) (Some hash) (Some b) = Some r
    /\ (ctx_new_ok p = false -> rc r = 3%Z)
    /\ (digest_init_ok p = false -> rc r = 3%Z)
    /\ ((exists data, In (DigestUpdate data false) (trace r)) -> rc r = 3%Z)
    /\ (fault_hit d = false -> digest_final p (delivered d) = None -> rc r = 3%Z)
    /\ (fault_hit d = false ->
        forall md, digest_final p (delivered d) = Some md ->
                   length md <> 32%nat -> rc r = 3%Z)
    /\ (existsb digest_failure (trace r) = true <-> rc r = 3%Z).
Proof.
  intros Hfs Hfuel.
  destruct (sfd_sha256_file_returns fs p fuel (Some path) (Some hash) (Some b))
    as [r Hrun].
  { intros s d' [= <-] Hd'. rewrite Hfs in Hd'. injection Hd' as <-. exact Hfuel. }
  exists r. split; [exact Hrun|].
  apply (sfd_sha256_file_exit_path fs p fuel path d hash b r Hfs) in Hrun.
  assert (Hiff : existsb digest_failure (trace r) = true <-> rc r = 3%Z).
  { destruct Hrun as [Hnew | Hnew Hinit
                      | full last rest Hnew Hinit Hch Hupd
                      | full last Hnew Hinit Hch Hlt Hf
                      | full last Hnew Hinit Hch Hlt Hf Hfin
                      | full last md Hnew Hinit Hch Hlt Hf Hfin Hmd
                      | full last md Hnew Hinit Hch Hlt Hf Hfin Hmd];
      cbn [rc trace].
    - split; reflexivity.
    - split; reflexivity.
    - split; [reflexivity|]. intros _. failure_in_tail.
    - split; [|discriminate]. intros Hex.
      rewrite !app_assoc, existsb_app, <- !app_assoc in Hex.
      destruct (quiet_until_tail path full last) as [_ Hq].
      rewrite Hq in Hex. discriminate.
    - split; [reflexivity|]. intros _. failure_in_tail.
    - split; [reflexivity|]. intros _. failure_in_tail.
      apply Nat.eqb_neq in Hmd. unfold SFD_SHA256_LEN in Hmd. rewrite Hmd.
      reflexivity.
    - split; [|discriminate]. intros Hex.
      rewrite !app_assoc, existsb_app, <- !app_assoc in Hex.
      destruct (quiet_until_tail path full last) as [_ Hq].
      rewrite Hq in Hex. cbn [existsb digest_failure orb] in Hex.
      apply Nat.eqb_eq in Hmd. unfold SFD_SHA256_LEN in Hmd. rewrite Hmd in Hex.
      discriminate. }
  split.
  { intros Hno. destruct Hrun; cbn [rc]; congruence. }
  split.
  { intros Hno. destruct Hrun; cbn [rc]; congruence. }
  split.
  { intros [data Hin]. apply Hiff. apply existsb_exists.
    exists (DigestUpdate data false). split; [exact Hin | reflexivity]. }
  split.
  { intros Hf Hfin. destruct Hrun; cbn [rc]; congruence. }
  split.
  { intros Hf md Hfin Hmd. destruct Hrun; cbn [rc]; try congruence.
    unfold SFD_SHA256_LEN in *. congruence. }
  exact Hiff.
Qed.

(** C9: once the file is open and the digest context acquired, every way
    out of [sfd_sha256_file], whatever value it returns, has the release of
    the context and then the closing of the file as its last two actions,
    and neither is released before that. *)
Theorem resources_released_on_every_exit (fuel : nat)
  (fs : string -> option disk_file) (p : evp_provider) (path : option string)
  (out_hash : option (list byte)) (out_bytes : option Z) (r : hash_result) :
  sfd_sha256_file fuel fs p path out_hash out_bytes = Some r ->
  In (MdCtxNew true) (trace r) ->
  exists pre,
    trace r = pre ++ [MdCtxFree; Fclose]
    /\ existsb is_release pre = false
    /\ (exists s, In (Fopen s true) pre)
    /\ (rc r = 0 \/ rc r = 2 \/ rc r = 3)%Z.
Proof.
  intros Hrun Hin.
  destruct path as [path|];
    [| rewrite sfd_sha256_file_null in Hrun by auto;
       injection Hrun as <-; destruct Hin].
  destruct out_hash as [hash|];
    [| rewrite sfd_sha256_file_null in Hrun by auto;
       injection Hrun as <-; destruct Hin].
  destruct out_bytes as [b|];
    [| rewrite sfd_sha256_file_null in Hrun by auto;
       injection Hrun as <-; destruct Hin].
  destruct (fs path) as [d|] eqn:Hfs;
    [| rewrite sfd_sha256_file_not_opened in Hrun by exact Hfs;
       injection Hrun as <-; cbn in Hin; intuition discriminate].
  apply (sfd_sha256_file_exit_path fs p fuel path d hash b r Hfs) in Hrun.
  destruct Hrun as [Hnew | Hnew Hinit
                    | full last rest Hnew Hinit Hch Hupd
                    | full last Hnew Hinit Hch Hlt Hf
                    | full last Hnew Hinit Hch Hlt Hf Hfin
                    | full last md Hnew Hinit Hch Hlt Hf Hfin Hmd
                    | full last md Hnew Hinit Hch Hlt Hf Hfin Hmd];
    cbn [rc trace] in *.
  - cbn in Hin. intuition discriminate.
  - exists [Fopen path true; MdCtxNew true; DigestInit false].
    split; [reflexivity|]. split; [reflexivity|].
    split; [exists path; left; reflexivity | auto].
  - exists (opened path ++ reading full
              ++ [Fread (length last); DigestUpdate last false]).
    split; [rewrite <- !app_assoc; reflexivity|].
    split; [rewrite app_assoc, existsb_app, quiet_until_update; reflexivity|].
    split; [exists path; left; reflexivity | auto].
  - exists (opened path ++ reading full ++ read_events last).
    split; [rewrite <- !app_assoc; reflexivity|].
    split; [apply quiet_until_tail|].
    split; [exists path; left; reflexivity | auto].
  - exists ((opened path ++ reading full ++ read_events last)
              ++ [DigestFinal false 0]).
    split; [rewrite <- !app_assoc; reflexivity|].
    split; [rewrite existsb_app; destruct (quiet_until_tail path full last) as [-> _];
            reflexivity|].
    split; [exists path; left; reflexivity | auto].
  - exists ((opened path ++ reading full ++ read_events last)
              ++ [DigestFinal true (length md)]).
    split; [rewrite <- !app_assoc; reflexivity|].
    split; [rewrite existsb_app; destruct (quiet_until_tail path full last) as [-> _];
            reflexivity|].
    split; [exists path; left; reflexivity | auto].
  - exists ((opened path ++ reading full ++ read_events last)
              ++ [DigestFinal true (length md)]).
    split; [rewrite <- !app_assoc; reflexivity|].
    split; [rewrite existsb_app; destruct (quiet_until_tail path full last) as [-> _];
            reflexivity|].
    split; [exists path; left; reflexivity | auto].
Qed.

(** ** The text of the success line *)

Section success_line.
Local Open Scope string_scope.

Lemma string_app_assoc (s1 s2 s3 : string) : (s1 ++ s2) ++ s3 = s1 ++ s2 ++ s3.
Proof. induction s1 as [|c s1 IH]; [reflexivity|]. cbn. rewrite IH. reflexivity. Qed.

Lemma after_literal_app (lit s : string) : after_literal lit (lit ++ s) = Some s.
Proof.
  induction lit as [|c lit IH]; [reflexivity|].
  cbn. rewrite Ascii.eqb_refl. exact IH.
Qed.

Lemma after_hex_app (h : list ascii) (s : string) :
  Forall (fun c => is_lower_hex c = true) h ->
  after_hex (length h) (string_of_list_ascii h ++ s) = Some s.
Proof.
  induction 1 as [|c h Hc _ IH]; [reflexivity|].
  cbn. rewrite Hc. exact IH.
Qed.

Lemma after_digits_app (ds : string) (c : ascii) (s : string) :
  digits_only ds = true -> is_digit c = false ->
  after_digits (ds ++ String c s) = String c s.
Proof.
  intros Hds Hc. induction ds as [|d ds IH]; cbn.
  - rewrite Hc. reflexivity.
  - cbn in Hds. apply andb_true_iff in Hds as [-> Hds]. apply IH, Hds.
Qed.

(** The digits of a decimal numeral are digits. *)
Lemma string_of_uint_digits (u : Decimal.uint) :
  digits_only (NilEmpty.string_of_uint u) = true.
Proof. induction u; cbn; auto. Qed.

(** A numeral stripped of its leading zeros does not start with one. *)
Lemma nzhead_shape (u : Decimal.uint) :
  match Decimal.nzhead u with
  | Decimal.D0 _ => False
  | _ => True
  end.
Proof. induction u; cbn; auto. Qed.

(** [%llu] prints [0], or a digit from 1 to 9 followed by digits. *)
Lemma print_llu_shape (n : Z) :
  print_llu n = "0"
  \/ exists c rest, print_llu n = String c rest
                    /\ Ascii.eqb c "0" = false
                    /\ is_nonzero_digit c = true /\ digits_only rest = true.
Proof.
  unfold print_llu.
  assert (Hu : N.to_uint (Z.to_N n) = Decimal.unorm (N.to_uint (Z.to_N n))).
  { rewrite <- DecimalN.Unsigned.to_of, DecimalN.Unsigned.of_to. reflexivity. }
  rewrite Hu. generalize (N.to_uint (Z.to_N n)). clear Hu. intros u.
  unfold Decimal.unorm. pose proof (nzhead_shape u) as Hnz.
  destruct (Decimal.nzhead u) as [|u'|u'|u'|u'|u'|u'|u'|u'|u'|u'];
    [left; reflexivity | destruct Hnz | ..];
    right; eexists _, _; (split; [reflexivity|]);
    repeat split; apply string_of_uint_digits.
Qed.

Lemma after_count_print_llu (n : Z) :
  after_count (print_llu n ++ line_tail) = Some line_tail.
Proof.
  destruct (print_llu_shape n) as [-> | (c & rest & -> & Hc0 & Hc & Hrest)];
    [reflexivity|].
  cbn [append after_count]. rewrite Hc0, Hc.
  unfold line_tail. cbn [append].
  rewrite after_digits_app by (exact Hrest || reflexivity). reflexivity.
Qed.

Lemma success_line_matches (digest : list byte) (count : Z) :
  length digest = 32%nat ->
  matches_success_regex (success_line digest count) = true.
Proof.
  intros Hlen. unfold matches_success_regex, success_line.
  rewrite after_literal_app.
  replace 64%nat with (length (hex_of_bytes digest))
    by (rewrite length_hex_of_bytes, Hlen; reflexivity).
  rewrite after_hex_app by apply hex_of_bytes_lower.
  rewrite after_literal_app, after_count_print_llu.
  reflexivity.
Qed.

(** The text [printf] produces is the success line of what [hex] holds. *)
Lemma printf_json_line (digest : list byte) (rest : list ascii) (count : Z) :
  printf_json (hex_of_bytes digest ++ zero :: rest)%list count
  = success_line digest count.
Proof.
  unfold printf_json, success_line.
  rewrite c_string_terminated by apply hex_of_bytes_nonzero.
  unfold line_head, line_middle, line_tail, quoted.
  cbn [append]. rewrite !string_app_assoc. reflexivity.
Qed.

End success_line.

(** ** The numeral [%llu] prints *)

Section decimal.
Local Open Scope string_scope.

(** Reading a numeral that continues a number already begun. *)
Lemma decimal_value_from_acc (u : Decimal.uint) :
  forall acc : positive,
    decimal_value_from (Z.pos acc) (NilEmpty.string_of_uint u)
    = Some (Z.pos (Pos.of_uint_acc u acc)).
Proof.
  induction u as [|u IH|u IH|u IH|u IH|u IH|u IH|u IH|u IH|u IH|u IH];
    intros acc; [reflexivity | ..];
    cbn [NilEmpty.string_of_uint decimal_value_from Pos.of_uint_acc];
    match goal with
    | |- context [is_digit ?c] =>
        change (is_digit c) with true; cbv iota;
        let v := eval vm_compute in (Z.of_nat (nat_of_ascii c) - 48) in
        change (Z.of_nat (nat_of_ascii c) - 48) with v
    end;
    rewrite <- IH; f_equal; lia.
Qed.

(** Reading back a numeral gives the number it was printed from. *)
Lemma decimal_value_from_uint (u : Decimal.uint) :
  decimal_value_from 0 (NilEmpty.string_of_uint u) = Some (Z.of_N (Pos.of_uint u)).
Proof.
  induction u as [|u IH|u IH|u IH|u IH|u IH|u IH|u IH|u IH|u IH|u IH];
    [reflexivity | exact IH | ..];
    cbn [NilEmpty.string_of_uint decimal_value_from Pos.of_uint Z.of_N];
    match goal with
    | |- context [is_digit ?c] =>
        change (is_digit c) with true; cbv iota;
        let v := eval vm_compute in (10 * 0 + (Z.of_nat (nat_of_ascii c) - 48)) in
        change (10 * 0 + (Z.of_nat (nat_of_ascii c) - 48)) with v
    end;
    apply decimal_value_from_acc.
Qed.

Lemma decimal_value_string_of_uint (u : Decimal.uint) :
  decimal_value (NilZero.string_of_uint u) = Some (Z.of_N (N.of_uint u)).
Proof.
  destruct u; [reflexivity | ..];
    exact (decimal_value_from_uint _).
Qed.

(** [%llu] prints the canonical numeral of its argument. *)
Lemma print_llu_decimal (n : Z) :
  (0 <= n)%Z ->
  decimal_value (print_llu n) = Some n /\ canonical_decimal (print_llu n) = true.
Proof.
  intros Hn. split.
  - unfold print_llu.
    rewrite decimal_value_string_of_uint, DecimalN.Unsigned.of_to, Z2N.id by exact Hn.
    reflexivity.
  - destruct (print_llu_shape n) as [-> | (c & rest & -> & Hc0 & Hc & Hrest)];
      [reflexivity|].
    cbn [canonical_decimal]. rewrite Hc0, Hc, Hrest. reflexivity.
Qed.

End decimal.

(** ** The CLI driver *)

Section cli.
Variable fs : string -> option disk_file.
Variable p : evp_provider.
Variable junk : indeterminate.

Lemma length_hash0 : length (hash0 junk) = 32%nat.
Proof. unfold hash0. rewrite length_fmap, length_seq. reflexivity. Qed.

Lemma length_hex0 : length (hex0 junk) = 65%nat.
Proof. unfold hex0. rewrite length_fmap, length_seq. reflexivity. Qed.

Lemma main_wrong_argc (fuel : nat) (argv : list string) :
  length argv <> 2%nat ->
  main fuel fs p junk argv
  = Some {| exit_status := 1; stdout := ""; stderr := usage (argv !! 0%nat) |}.
Proof.
  intros Hargc. unfold main.
  replace (Z.of_nat (length argv) =? 2)%Z with false
    by (symmetry; apply Z.eqb_neq; lia).
  reflexivity.
Qed.

Lemma main_one_path (fuel : nat) (prog path : string) :
  main fuel fs p junk [prog; path]
  = match sfd_sha256_file fuel fs p (Some path) (Some (hash0 junk)) (Some 0%Z) with
    | None => None
    | Some r =>
        Some (main_report junk (rc r) (default (hash0 junk) (hash_after r))
                          (default 0%Z (bytes_after r)))
    end.
Proof. reflexivity. Qed.

(** What [main] prints for a 32-byte digest when the hasher returned 0. *)
Lemma main_report_success (digest : list byte) (count : Z) :
  length digest = 32%nat ->
  main_report junk 0 digest count
  = {| exit_status := 0; stdout := success_line digest count; stderr := "" |}.
Proof.
  intros Hlen. unfold main_report. cbn [Z.eqb negb].
  change SFD_SHA256_LEN with 32%nat. rewrite <- Hlen.
  rewrite sfd_hex_encode_lower_spec by (rewrite length_hex0; lia).
  rewrite printf_json_line. reflexivity.
Qed.

End cli.

(** The hasher, called with pointers that are not NULL, returns 0, 2 or 3. *)
Lemma sfd_sha256_file_codes (fuel : nat) (fs : string -> option disk_file)
  (p : evp_provider) (path : string) (hash : list byte) (b : Z) (r : hash_result) :
  sfd_sha256_file fuel fs p (Some path) (Some hash) (Some b) = Some r ->
  (rc r = 0 \/ rc r = 2 \/ rc r = 3)%Z.
Proof.
  intros Hrun. destruct (fs path) as [d|] eqn:Hfs.
  - apply (sfd_sha256_file_exit_path fs p fuel path d hash b r Hfs) in Hrun.
    destruct Hrun; cbn [rc]; auto.
  - rewrite sfd_sha256_file_not_opened in Hrun by exact Hfs.
    injection Hrun as <-. cbn [rc]. auto.
Qed.

(** On failure the hasher leaves the [out_hash] array as it found it. *)
Lemma sfd_sha256_file_hash_untouched (fuel : nat) (fs : string -> option disk_file)
  (p : evp_provider) (path : option string) (out_hash : option (list byte))
  (out_bytes : option Z) (r : hash_result) :
  sfd_sha256_file fuel fs p path out_hash out_bytes = Some r ->
  rc r <> 0%Z -> hash_after r = out_hash.
Proof.
  intros Hrun Hrc.
  destruct path as [path|];
    [| rewrite sfd_sha256_file_null in Hrun by auto; injection Hrun as <-; reflexivity].
  destruct out_hash as [hash|];
    [| rewrite sfd_sha256_file_null in Hrun by auto; injection Hrun as <-; reflexivity].
  destruct out_bytes as [b|];
    [| rewrite sfd_sha256_file_null in Hrun by auto; injection Hrun as <-; reflexivity].
  destruct (fs path) as [d|] eqn:Hfs.
  - apply (sfd_sha256_file_exit_path fs p fuel path d hash b r Hfs) in Hrun.
    destruct Hrun; cbn [rc hash_after] in *; congruence.
  - rewrite sfd_sha256_file_not_opened in Hrun by exact Hfs.
    injection Hrun as <-. reflexivity.
Qed.

(** When the hasher returns 0 to [main], the [hash] array holds the 32 bytes
    the digest primitive produced and the counter is below 2^64. *)
Lemma sfd_sha256_file_main_success (fuel : nat) (fs : string -> option disk_file)
  (p : evp_provider) (junk : indeterminate) (path : string) (r : hash_result) :
  sfd_sha256_file fuel fs p (Some path) (Some (hash0 junk)) (Some 0%Z) = Some r ->
  rc r = 0%Z ->
  exists digest count,
    hash_after r = Some digest /\ bytes_after r = Some count
    /\ length digest = 32%nat /\ (0 <= count < UINT64_MOD)%Z.
Proof.
  intros Hrun Hrc. destruct (fs path) as [d|] eqn:Hfs.
  - apply (sfd_sha256_file_exit_path fs p fuel path d _ _ r Hfs) in Hrun.
    destruct Hrun as [| | | | | | full last md Hnew Hinit Hch Hlt Hf Hfin Hmd];
      cbn [rc] in Hrc; try discriminate.
    cbn [hash_after bytes_after]. eexists _, _.
    split; [reflexivity|]. split; [reflexivity|].
    split; [| apply wrap_range].
    unfold memcpy. rewrite length_app, length_take, length_drop, length_hash0, Hmd.
    reflexivity.
  - rewrite sfd_sha256_file_not_opened in Hrun by exact Hfs.
    injection Hrun as <-. discriminate.
Qed.

(** C2: whenever the hasher returns 0 to [main], [main] exits with status 0,
    prints nothing on standard error, and prints on standard output the one
    line made of the opening brace, the algorithm field, the hash field
    holding the 64 lowercase hex characters of the digest the hasher
    stored, the bytes field, the closing brace and one newline, in that
    order and with nothing else.  The bytes field is a numeral that reads
    back, digit by digit, as the count the hasher stored, which is below
    2^64; it is the digit 0 alone or starts with a digit other than 0.  The
    line matches the regular expression of the output contract. *)
Theorem main_success_output (fuel : nat) (fs : string -> option disk_file)
  (p : evp_provider) (junk : indeterminate) (prog path : string) (r : hash_result) :
  sfd_sha256_file fuel fs p (Some path) (Some (hash0 junk)) (Some 0%Z) = Some r ->
  rc r = 0%Z ->
  exists digest count,
    hash_after r = Some digest /\ bytes_after r = Some count
    /\ main fuel fs p junk [prog; path]
       = Some {| exit_status := 0; stdout := success_line digest count;
                 stderr := EmptyString |}
    /\ success_line digest count
       = (line_head ++ string_of_list_ascii (hex_of_bytes digest)
                    ++ line_middle ++ print_llu count ++ line_tail)%string
    /\ length (hex_of_bytes digest) = 64%nat
    /\ Forall (fun c => is_lower_hex c = true) (hex_of_bytes digest)
    /\ matches_success_regex (success_line digest count) = true
    /\ (0 <= count < UINT64_MOD)%Z
    /\ exists numeral,
         main fuel fs p junk [prog; path]
         = Some {| exit_status := 0;
                   stdout := (line_head ++ string_of_list_ascii (hex_of_bytes digest)
                                ++ line_middle ++ numeral ++ line_tail)%string;
                   stderr := EmptyString |}
         /\ decimal_value numeral = Some count
         /\ canonical_decimal numeral = true.
Proof.
  intros Hrun Hrc.
  destruct (sfd_sha256_file_main_success fuel fs p junk path r Hrun Hrc)
    as (digest & count & Hhash & Hbytes & Hlen & Hcount).
  assert (Hmain : main fuel fs p junk [prog; path]
                  = Some {| exit_status := 0; stdout := success_line digest count;
                            stderr := EmptyString |}).
  { rewrite main_one_path, Hrun, Hrc, Hhash, Hbytes. cbn [default].
    rewrite main_report_success by exact Hlen. reflexivity. }
  exists digest, count.
  split; [exact Hhash|]. split; [exact Hbytes|].
  split; [exact Hmain|].
  split; [reflexivity|].
  split; [rewrite length_hex_of_bytes, Hlen; reflexivity|].
  split; [apply hex_of_bytes_lower|].
  split; [apply success_line_matches, Hlen|].
  split; [exact Hcount|].
  exists (print_llu count).
  split; [exact Hmain|].
  apply print_llu_decimal, Hcount.
Qed.

(** With enough fuel for the file named by its argument, [main] returns. *)
Lemma main_returns (fuel : nat) (fs : string -> option disk_file)
  (p : evp_provider) (junk : indeterminate) (argv : list string) :
  (forall s d, argv !! 1%nat = Some s -> fs s = Some d ->
               enough_fuel fuel (delivered d)) ->
  exists pr, main fuel fs p junk argv = Some pr.
Proof.
  intros Hfuel.
  destruct (Nat.eq_dec (length argv) 2%nat) as [Hargc | Hargc];
    [| eexists; apply main_wrong_argc, Hargc].
  destruct argv as [|prog [|path [|x rest]]]; try discriminate.
  rewrite main_one_path.
  destruct (sfd_sha256_file_returns fs p fuel (Some path) (Some (hash0 junk))
              (Some 0%Z)) as [r ->]; [| eauto].
  intros s d [= <-]. apply Hfuel. reflexivity.
Qed.

(** C3: every run of [main] ends, and its exit status and what it prints on
    standard error are as follows: a number of arguments other than one
    gives the usage line with the program name and status 1; the hasher's
    I/O error code gives the line [File I/O error] and status 2; its
    hashing error code gives the line [Hashing error] and status 3;
    success gives status 0.  The hasher returns no other value to
    [main]. *)
Theorem main_exit_code_mapping (fuel : nat) (fs : string -> option disk_file)
  (p : evp_provider) (junk : indeterminate) (argv : list string) :
  (forall s d, argv !! 1%nat = Some s -> fs s = Some d ->
               enough_fuel fuel (delivered d)) ->
  exists pr,
    main fuel fs p junk argv = Some pr
    /\ (length argv <> 2%nat ->
        pr = {| exit_status := 1; stdout := EmptyString;
                stderr := usage (argv !! 0%nat) |}
        /\ forall prog rest, argv = prog :: rest ->
             stderr pr
             = ("Usage: " ++ prog ++ " <file-path>" ++ String newline "")%string)
    /\ (forall prog path r,
          argv = [prog; path] ->
          sfd_sha256_file fuel fs p (Some path) (Some (hash0 junk)) (Some 0%Z)
          = Some r ->
          (rc r = 0 \/ rc r = 2 \/ rc r = 3)%Z
          /\ (rc r = 2%Z ->
              pr = {| exit_status := 2; stdout := EmptyString;
                      stderr := ("File I/O error" ++ String newline "")%string |})
          /\ (rc r = 3%Z ->
              pr = {| exit_status := 3; stdout := EmptyString;
                      stderr := ("Hashing error" ++ String newline "")%string |})
          /\ (rc r = 0%Z -> exit_status pr = 0%Z /\ stderr pr = EmptyString))
    /\ (exit_status pr = 0 \/ exit_status pr = 1 \/ exit_status pr = 2
        \/ exit_status pr = 3)%Z.
Proof.
  intros Hfuel.
  destruct (main_returns fuel fs p junk argv Hfuel) as [pr Hmain].
  exists pr. split; [exact Hmain|].
  split.
  { intros Hargc. rewrite main_wrong_argc in Hmain by exact Hargc.
    injection Hmain as <-. split; [reflexivity|].
    intros prog rest ->. reflexivity. }
  split.
  { intros prog path r -> Hrun.
    rewrite main_one_path, Hrun in Hmain. injection Hmain as <-.
    split; [apply (sfd_sha256_file_codes _ _ _ _ _ _ _ Hrun)|].
    split; [intros ->; reflexivity|].
    split; [intros ->; reflexivity|].
    intros Hrc.
    destruct (sfd_sha256_file_main_success fuel fs p junk path r Hrun Hrc)
      as (digest & count & -> & -> & Hlen & _).
    rewrite Hrc. cbn [default]. rewrite main_report_success by exact Hlen.
    split; reflexivity. }
  destruct (Nat.eq_dec (length argv) 2%nat) as [Hargc | Hargc].
  - destruct argv as [|prog [|path [|x rest]]]; try discriminate.
    rewrite main_one_path in Hmain.
    destruct (sfd_sha256_file _ _ _ _ _ _) as [r|] eqn:Hrun; [|discriminate].
    injection Hmain as <-. unfold main_report.
    destruct (rc r =? 0)%Z; cbn [negb]; [cbn; auto|].
    destruct (rc r =? 2)%Z; cbn; auto.
  - rewrite main_wrong_argc in Hmain by exact Hargc.
    injection Hmain as <-. cbn. auto.
Qed.

(** C4: a run of [main] that does not exit with status 0 has printed
    nothing on standard output and exits with status 1, 2 or 3; and a call
    of the hasher that does not return 0 has left the [out_hash] array as
    it was, so that no part of a digest is handed out. *)
Theorem failure_emits_nothing (fuel : nat) (fs : string -> option disk_file)
  (p : evp_provider) (junk : indeterminate) (argv : list string) (pr : process)
  (path : option string) (out_hash : option (list byte)) (out_bytes : option Z)
  (r : hash_result) :
  main fuel fs p junk argv = Some pr ->
  sfd_sha256_file fuel fs p path out_hash out_bytes = Some r ->
  (exit_status pr <> 0%Z ->
     stdout pr = EmptyString
     /\ (exit_status pr = 1 \/ exit_status pr = 2 \/ exit_status pr = 3)%Z)
  /\ (rc r <> 0%Z -> hash_after r = out_hash).
Proof.
  intros Hmain Hrun.
  split; [| apply (sfd_sha256_file_hash_untouched _ _ _ _ _ _ _ Hrun)].
  intros Hexit.
  destruct (Nat.eq_dec (length argv) 2%nat) as [Hargc | Hargc].
  - destruct argv as [|prog [|arg [|x rest]]]; try discriminate.
    rewrite main_one_path in Hmain.
    destruct (sfd_sha256_file fuel fs p (Some arg) _ _) as [r'|] eqn:Hrun';
      [|discriminate].
    injection Hmain as <-. unfold main_report in *.
    destruct (rc r' =? 0)%Z; cbn [negb] in *; [cbn in Hexit; congruence|].
    destruct (rc r' =? 2)%Z; cbn; auto.
  - rewrite main_wrong_argc in Hmain by exact Hargc.
    injection Hmain as <-. cbn. auto.
Qed.

(** C10: a NULL [path], [out_hash] or [out_bytes] makes [sfd_sha256_file]
    return 1 at once: no action is performed (no file opened, no context
    acquired) and the objects behind the other pointers are as before.
    [main] turns a return value of 1 into the line [Hashing error] and
    status 3, as it does every value other than 0 and 2. *)
Theorem null_arguments_rejected (fuel : nat) (fs : string -> option disk_file)
  (p : evp_provider) (junk : indeterminate) (path : option string)
  (out_hash : option (list byte)) (out_bytes : option Z)
  (hash : list byte) (bytes : Z) :
  path = None \/ out_hash = None \/ out_bytes = None ->
  sfd_sha256_file fuel fs p path out_hash out_bytes
  = Some {| rc := 1; hash_after := out_hash; bytes_after := out_bytes;
            trace := [] |}
  /\ main_report junk 1 hash bytes
     = {| exit_status := 3; stdout := EmptyString;
          stderr := ("Hashing error" ++ String newline "")%string |}
  /\ (forall rc', rc' <> 0%Z -> rc' <> 2%Z ->
        main_report junk rc' hash bytes
        = {| exit_status := 3; stdout := EmptyString;
             stderr := ("Hashing error" ++ String newline "")%string |}).
Proof.
  intros Hnull.
  split; [apply sfd_sha256_file_null, Hnull|].
  split; [reflexivity|].
  intros rc' H0 H2. unfold main_report.
  apply Z.eqb_neq in H0, H2. rewrite H0, H2. reflexivity.
Qed.

(** C7: on an empty file, with the digest provider working, the hasher
    returns 0, stores the count 0 and the SHA-256 of the empty string, and
    [main] prints the success line with the hash field
    [e3b0c44298fc1c149afbf4c8996fb92427ae41e4649b934ca495991b7852b855] and
    the bytes field [0], and exits with status 0. *)
Theorem empty_file_digest (fuel : nat) (fs : string -> option disk_file)
  (junk : indeterminate) (prog path : string) (d : disk_file)
  (hash : list byte) (b : Z) :
  (0 < fuel)%nat ->
  fs path = Some d -> content d = [] -> fault_hit d = false ->
  sfd_sha256_file fuel fs openssl (Some path) (Some hash) (Some b)
  = Some {| rc := 0;
            hash_after := Some (sha256_empty ++ drop SFD_SHA256_LEN hash);
            bytes_after := Some 0%Z;
            trace := opened path
                       ++ [Fread 0; DigestFinal true 32; MdCtxFree; Fclose] |}
  /\ SHA256.digest [] = sha256_empty
  /\ string_of_list_ascii (hex_of_bytes sha256_empty) = sha256_empty_hex
  /\ main fuel fs openssl junk [prog; path]
     = Some {| exit_status := 0;
               stdout := (line_head ++ sha256_empty_hex ++ line_middle
                                    ++ "0" ++ line_tail)%string;
               stderr := EmptyString |}.
Proof.
  intros Hfuel Hfs Hcontent Hfault.
  assert (Hrun : forall hash b,
    sfd_sha256_file fuel fs openssl (Some path) (Some hash) (Some b)
    = Some {| rc := 0;
              hash_after := Some (sha256_empty ++ drop SFD_SHA256_LEN hash);
              bytes_after := Some 0%Z;
              trace := opened path
                         ++ [Fread 0; DigestFinal true 32; MdCtxFree; Fclose] |}).
  { intros hash' b'. unfold sfd_sha256_file, fopen. rewrite Hfs.
    rewrite (delivered_no_fault d Hfault), Hcontent, Hfault.
    destruct fuel as [|fuel']; [lia|]. vm_compute. reflexivity. }
  split; [apply Hrun|].
  split; [vm_compute; reflexivity|].
  split; [vm_compute; reflexivity|].
  rewrite main_one_path, Hrun. cbn [rc hash_after bytes_after default].
  rewrite drop_ge by (rewrite length_hash0; reflexivity).
  rewrite app_nil_r, main_report_success by reflexivity.
  vm_compute. reflexivity.
Qed.

(** ** Sample runs *)

Section sample_runs.
Local Open Scope string_scope.

(** The scenarios of the specification. *)
Example run_no_arguments :
  main 1 fs_a openssl zero_junk ["program"]
  = Some {| exit_status := 1; stdout := "";
            stderr := "Usage: program <file-path>" ++ String newline "" |}.
Proof. vm_compute. reflexivity. Qed.

Example run_missing_file :
  main 1 fs_a openssl zero_junk ["program"; "missing"]
  = Some {| exit_status := 2; stdout := "";
            stderr := "File I/O error" ++ String newline "" |}.
Proof. vm_compute. reflexivity. Qed.

Example run_empty_file :
  main 1 fs_empty openssl zero_junk ["program"; "empty"]
  = Some {| exit_status := 0;
            stdout := line_head ++ sha256_empty_hex ++ line_middle
                                ++ "0" ++ line_tail;
            stderr := "" |}.
Proof. vm_compute. reflexivity. Qed.

Example run_single_byte_a :
  main 1 fs_a openssl zero_junk ["program"; "a.txt"]
  = Some {| exit_status := 0;
            stdout := line_head
              ++ "ca978112ca1bbdcafac231b39a23dc4da786eff8147c4e72b9807785afee48bb"
              ++ line_middle ++ "1" ++ line_tail;
            stderr := "" |}.
Proof. vm_compute. reflexivity. Qed.

(** A file of exactly one buffer of zero bytes: the first read fills the
    buffer and does not end the loop; a second read, of nothing, finds
    the end of the file. *)
Example run_one_full_buffer :
  let fs := one_file "zeros" {| content := replicate sizeof_buf x00;
                                read_fault := None |} in
  main 1 fs openssl zero_junk ["program"; "zeros"] = None
  /\ main 2 fs openssl zero_junk ["program"; "zeros"]
     = Some {| exit_status := 0;
               stdout := line_head
                 ++ "de2f256064a0af797747c2b97505dc0b9f3df0de4f489eac731c23ae9ca9cc31"
                 ++ line_middle ++ "65536" ++ line_tail;
               stderr := "" |}.
Proof. split; vm_compute; reflexivity. Qed.

(** One run for each way the digest primitive can fail, and one for a
    read error in the middle of a read. *)
Example run_no_context :
  sfd_sha256_file 1 fs_a no_context (Some "a.txt") (Some (hash0 zero_junk)) (Some 0%Z)
  = Some {| rc := 3; hash_after := Some (hash0 zero_junk); bytes_after := Some 0%Z;
            trace := [Fopen "a.txt" true; MdCtxNew false; Fclose] |}.
Proof. vm_compute. reflexivity. Qed.

Example run_no_init :
  sfd_sha256_file 1 fs_a no_init (Some "a.txt") (Some (hash0 zero_junk)) (Some 0%Z)
  = Some {| rc := 3; hash_after := Some (hash0 zero_junk); bytes_after := Some 0%Z;
            trace := [Fopen "a.txt" true; MdCtxNew true; DigestInit false;
                      MdCtxFree; Fclose] |}.
Proof. vm_compute. reflexivity. Qed.

Example run_no_update :
  sfd_sha256_file 1 fs_a no_update (Some "a.txt") (Some (hash0 zero_junk)) (Some 0%Z)
  = Some result_no_update.
Proof. vm_compute. reflexivity. Qed.

Example run_no_final :
  sfd_sha256_file 1 fs_a no_final (Some "a.txt") (Some (hash0 zero_junk)) (Some 0%Z)
  = Some {| rc := 3; hash_after := Some (hash0 zero_junk); bytes_after := Some 1%Z;
            trace := opened "a.txt"
                       ++ [Fread 1; DigestUpdate [x61] true;
                           DigestFinal false 0; MdCtxFree; Fclose] |}.
Proof. vm_compute. reflexivity. Qed.

Example run_short_final :
  sfd_sha256_file 1 fs_a short_final (Some "a.txt") (Some (hash0 zero_junk)) (Some 0%Z)
  = Some {| rc := 3; hash_after := Some (hash0 zero_junk); bytes_after := Some 1%Z;
            trace := opened "a.txt"
                       ++ [Fread 1; DigestUpdate [x61] true;
                           DigestFinal true 20; MdCtxFree; Fclose] |}.
Proof. vm_compute. reflexivity. Qed.

Example run_torn :
  sfd_sha256_file 1 fs_torn openssl (Some "torn") (Some (hash0 zero_junk)) (Some 0%Z)
  = Some result_torn.
Proof. vm_compute. reflexivity. Qed.

Example run_a :
  sfd_sha256_file 1 fs_a openssl (Some "a.txt") (Some (hash0 zero_junk)) (Some 0%Z)
  = Some result_a.
Proof. vm_compute. reflexivity. Qed.

End sample_runs.

(** ** The theorems at sample inputs *)

Lemma sfd_hex_encode_lower_correct_witness :
  (2 * length [xca; xfe] < length (replicate 5 "x"%char))%nat
  /\ take (2 * length [xca; xfe])
          (sfd_hex_encode_lower [xca; xfe] (length [xca; xfe])
                                (replicate 5 "x"%char))
     = hex_of_bytes [xca; xfe].
Proof.
  assert (H : (2 * length [xca; xfe] < length (replicate 5 "x"%char))%nat)
    by (cbn; lia).
  split; [exact H|].
  exact (proj1 (sfd_hex_encode_lower_correct [xca; xfe] (replicate 5 "x"%char) H)).
Defined.

Lemma sfd_sha256_file_success_witness :
  (computes_sha256 openssl
   /\ fs_a "a.txt"%string = Some file_a
   /\ (Z.of_nat (length (content file_a)) < UINT64_MOD)%Z
   /\ sfd_sha256_file 1 fs_a openssl (Some "a.txt"%string)
        (Some (hash0 zero_junk)) (Some 0%Z) = Some result_a
   /\ rc result_a = 0%Z)
  /\ bytes_after result_a = Some (Z.of_nat (length (content file_a)))
  /\ hash_after result_a
     = Some (SHA256.digest (content file_a) ++ drop SFD_SHA256_LEN (hash0 zero_junk))
  /\ fed (trace result_a) = content file_a.
Proof.
  assert (H1 : fs_a "a.txt"%string = Some file_a) by reflexivity.
  assert (H2 : (Z.of_nat (length (content file_a)) < UINT64_MOD)%Z) by reflexivity.
  assert (H3 : sfd_sha256_file 1 fs_a openssl
                 (Some "a.txt"%string) (Some (hash0 zero_junk)) (Some 0%Z)
               = Some result_a) by (vm_compute; reflexivity).
  assert (H4 : rc result_a = 0%Z) by reflexivity.
  split; [exact (conj openssl_computes_sha256 (conj H1 (conj H2 (conj H3 H4))))|].
  exact (sfd_sha256_file_success 1 fs_a openssl "a.txt"
           file_a (hash0 zero_junk) 0 result_a openssl_computes_sha256 H1 H2 H3 H4).
Defined.

Lemma main_success_output_witness :
  (sfd_sha256_file 1 fs_a openssl (Some "a.txt"%string)
     (Some (hash0 zero_junk)) (Some 0%Z) = Some result_a
   /\ rc result_a = 0%Z)
  /\ exists digest numeral,
       main 1 fs_a openssl zero_junk ["program"; "a.txt"]%string
       = Some {| exit_status := 0;
                 stdout := (line_head ++ string_of_list_ascii (hex_of_bytes digest)
                              ++ line_middle ++ numeral ++ line_tail)%string;
                 stderr := EmptyString |}
       /\ decimal_value numeral = Some 1%Z
       /\ canonical_decimal numeral = true
       /\ matches_success_regex
            (line_head ++ string_of_list_ascii (hex_of_bytes digest)
               ++ line_middle ++ numeral ++ line_tail)%string = true.
Proof.
  assert (H1 : sfd_sha256_file 1 fs_a openssl
                 (Some "a.txt"%string) (Some (hash0 zero_junk)) (Some 0%Z)
               = Some result_a) by (vm_compute; reflexivity).
  assert (H2 : rc result_a = 0%Z) by reflexivity.
  split; [exact (conj H1 H2)|].
  destruct (main_success_output 1 fs_a openssl zero_junk
              "program" "a.txt" result_a H1 H2)
    as (digest & count & _ & Hcount & Hmain & _ & _ & _ & Hre & _
        & numeral & Hout & Hval & Hcan).
  assert (Hone : count = 1%Z).
  { cbn [bytes_after result_a] in Hcount. injection Hcount as <-. reflexivity. }
  exists digest, numeral.
  rewrite Hone in Hval.
  assert (Hline : success_line digest count
                  = (line_head ++ string_of_list_ascii (hex_of_bytes digest)
                       ++ line_middle ++ numeral ++ line_tail)%string).
  { exact (f_equal (fun o => match o with
                               | Some pr => stdout pr
                               | None => EmptyString
                               end)
                    (eq_trans (eq_sym Hmain) Hout)). }
  rewrite Hline in Hre.
  exact (conj Hout (conj Hval (conj Hcan Hre))).
Defined.

Lemma main_exit_code_mapping_witness :
  (forall s d, ["program"; "missing"]%string !! 1%nat = Some s ->
               fs_a s = Some d -> enough_fuel 1 (delivered d))
  /\ exists pr,
       main 1 fs_a openssl zero_junk ["program"; "missing"]%string = Some pr
       /\ (exit_status pr = 0 \/ exit_status pr = 1 \/ exit_status pr = 2
           \/ exit_status pr = 3)%Z.
Proof.
  assert (H : forall s d, ["program"; "missing"]%string !! 1%nat = Some s ->
                          fs_a s = Some d -> enough_fuel 1 (delivered d)).
  { intros s d [= <-] Hd. vm_compute in Hd. discriminate Hd. }
  split; [exact H|].
  destruct (main_exit_code_mapping 1 fs_a openssl zero_junk
              ["program"; "missing"]%string H) as (pr & Hmain & _ & _ & Hcodes).
  exists pr. exact (conj Hmain Hcodes).
Defined.

Lemma failure_emits_nothing_witness :
  (main 1 fs_a openssl zero_junk ["program"; "missing"]%string
   = Some {| exit_status := 2; stdout := EmptyString;
             stderr := ("File I/O error" ++ String newline "")%string |}
   /\ sfd_sha256_file 1 fs_a openssl (Some "missing"%string)
        (Some (hash0 zero_junk)) (Some 0%Z) = Some result_missing)
  /\ (2 <> 0 -> EmptyString = EmptyString /\ (2 = 1 \/ 2 = 2 \/ 2 = 3))%Z
  /\ (rc result_missing <> 0%Z -> hash_after result_missing = Some (hash0 zero_junk)).
Proof.
  assert (H1 : main 1 fs_a openssl zero_junk
                 ["program"; "missing"]%string
               = Some {| exit_status := 2; stdout := EmptyString;
                         stderr := ("File I/O error" ++ String newline "")%string |})
    by (vm_compute; reflexivity).
  assert (H2 : sfd_sha256_file 1 fs_a openssl
                 (Some "missing"%string) (Some (hash0 zero_junk)) (Some 0%Z)
               = Some result_missing) by (vm_compute; reflexivity).
  split; [exact (conj H1 H2)|].
  exact (failure_emits_nothing 1 fs_a openssl zero_junk
           ["program"; "missing"]%string _ (Some "missing"%string)
           (Some (hash0 zero_junk)) (Some 0%Z) result_missing H1 H2).
Defined.

Lemma read_loop_feeds_what_it_reads_witness :
  ((fs_torn "torn"%string = Some file_torn
    /\ sfd_sha256_file 1 fs_torn openssl (Some "torn"%string)
         (Some (hash0 zero_junk)) (Some 0%Z) = Some result_torn)
   /\ Z.of_nat sizeof_buf = 65536%Z
   /\ (exists k, fed (trace result_torn) = take k (delivered file_torn))
   /\ bytes_after result_torn
      = Some (Z.of_nat (length (fed (trace result_torn))) mod UINT64_MOD)%Z
   /\ ctx_after openssl [] (trace result_torn) = Some (fed (trace result_torn)))
  /\ ((fs_a "a.txt"%string = Some file_a
       /\ sfd_sha256_file 1 fs_a no_final (Some "a.txt"%string)
            (Some (hash0 zero_junk)) (Some 0%Z) = Some result_no_final)
      /\ fed (trace result_no_final) = delivered file_a
      /\ bytes_after result_no_final
         = Some (Z.of_nat (length (delivered file_a)) mod UINT64_MOD)%Z)
  /\ ((fs_a "a.txt"%string = Some file_a
       /\ sfd_sha256_file 1 fs_a needs_input (Some "a.txt"%string)
            (Some (hash0 zero_junk)) (Some 0%Z) = Some result_a)
      /\ ctx_after needs_input [] (trace result_a) = Some (fed (trace result_a))
      /\ fed (trace result_a) = delivered file_a).
Proof.
  assert (H1 : fs_torn "torn"%string = Some file_torn) by reflexivity.
  assert (H2 : sfd_sha256_file 1 fs_torn openssl
                 (Some "torn"%string) (Some (hash0 zero_junk)) (Some 0%Z)
               = Some result_torn) by (vm_compute; reflexivity).
  assert (H3 : fs_a "a.txt"%string = Some file_a) by reflexivity.
  assert (H4 : sfd_sha256_file 1 fs_a no_final
                 (Some "a.txt"%string) (Some (hash0 zero_junk)) (Some 0%Z)
               = Some result_no_final) by (vm_compute; reflexivity).
  assert (H5 : sfd_sha256_file 1 fs_a needs_input
                 (Some "a.txt"%string) (Some (hash0 zero_junk)) (Some 0%Z)
               = Some result_a) by (vm_compute; reflexivity).
  split; [| split].
  - split; [exact (conj H1 H2)|].
    destruct (read_loop_feeds_what_it_reads 1 fs_torn openssl
                "torn" file_torn (hash0 zero_junk) 0 result_torn H1 H2)
      as (Hsize & Hprefix & Hcount & Hctx & _).
    exact (conj Hsize (conj Hprefix (conj Hcount Hctx))).
  - split; [exact (conj H3 H4)|].
    destruct (read_loop_feeds_what_it_reads 1 fs_a no_final
                "a.txt" file_a (hash0 zero_junk) 0 result_no_final H3 H4)
      as (_ & _ & _ & _ & [(_ & _ & [Hbad | Hbad]) | Hloop]);
      [discriminate Hbad | discriminate Hbad |].
    destruct Hloop as (full & last & rest & _
                       & [(Hbad & _) | (_ & _ & _ & _ & Hfed & _ & Hcount & _)]);
      [discriminate Hbad|].
    exact (conj Hfed Hcount).
  - split; [exact (conj H3 H5)|].
    destruct (read_loop_feeds_what_it_reads 1 fs_a needs_input
                "a.txt" file_a (hash0 zero_junk) 0 result_a H3 H5)
      as (_ & _ & _ & Hctx & [(_ & _ & [Hbad | Hbad]) | Hloop]);
      [discriminate Hbad | discriminate Hbad |].
    destruct Hloop as (full & last & rest & _
                       & [(Hbad & _) | (_ & _ & _ & _ & Hfed & _)]);
      [discriminate Hbad|].
    exact (conj Hctx Hfed).
Defined.

Lemma empty_file_digest_witness :
  ((0 < 1)%nat
   /\ fs_empty "empty"%string = Some file_empty
   /\ content file_empty = [] /\ fault_hit file_empty = false)
  /\ main 1 fs_empty openssl zero_junk
       ["program"; "empty"]%string
     = Some {| exit_status := 0;
               stdout := (line_head ++ sha256_empty_hex ++ line_middle
                                    ++ "0" ++ line_tail)%string;
               stderr := EmptyString |}.
Proof.
  assert (H0 : (0 < 1)%nat) by lia.
  assert (H1 : fs_empty "empty"%string = Some file_empty)
    by reflexivity.
  assert (H2 : content file_empty = []) by reflexivity.
  assert (H3 : fault_hit file_empty = false) by reflexivity.
  split; [exact (conj H0 (conj H1 (conj H2 H3)))|].
  exact (proj2 (proj2 (proj2
           (empty_file_digest 1 fs_empty zero_junk "program"
              "empty" file_empty (hash0 zero_junk) 0 H0 H1 H2 H3)))).
Defined.

Lemma digest_failures_are_hashing_errors_witness :
  (fs_a "a.txt"%string = Some file_a /\ enough_fuel 1 (delivered file_a))
  /\ exists r,
       sfd_sha256_file 1 fs_a no_context (Some "a.txt"%string)
         (Some (hash0 zero_junk)) (Some 0%Z) = Some r
       /\ rc r = 3%Z.
Proof.
  assert (H1 : fs_a "a.txt"%string = Some file_a) by reflexivity.
  assert (H2 : enough_fuel 1 (delivered file_a))
    by (apply Nat.ltb_lt; vm_compute; reflexivity).
  split; [exact (conj H1 H2)|].
  destruct (digest_failures_are_hashing_errors 1 fs_a no_context "a.txt" file_a
              (hash0 zero_junk) 0 H1 H2) as (r & Hrun & Hnew & _).
  exists r. exact (conj Hrun (Hnew eq_refl)).
Defined.

Lemma resources_released_on_every_exit_witness :
  (sfd_sha256_file 1 fs_torn openssl (Some "torn"%string)
     (Some (hash0 zero_junk)) (Some 0%Z) = Some result_torn
   /\ In (MdCtxNew true) (trace result_torn))
  /\ exists pre,
       trace result_torn = pre ++ [MdCtxFree; Fclose]
       /\ existsb is_release pre = false
       /\ (exists s, In (Fopen s true) pre)
       /\ (rc result_torn = 0 \/ rc result_torn = 2 \/ rc result_torn = 3)%Z.
Proof.
  assert (H1 : sfd_sha256_file 1 fs_torn openssl
                 (Some "torn"%string) (Some (hash0 zero_junk)) (Some 0%Z)
               = Some result_torn) by (vm_compute; reflexivity).
  assert (H2 : In (MdCtxNew true) (trace result_torn))
    by (right; left; reflexivity).
  split; [exact (conj H1 H2)|].
  exact (resources_released_on_every_exit 1 fs_torn openssl
           (Some "torn"%string) (Some (hash0 zero_junk)) (Some 0%Z) result_torn
           H1 H2).
Defined.

Lemma null_arguments_rejected_witness :
  (@None string = None \/ Some (hash0 zero_junk) = None \/ Some 0%Z = None)
  /\ sfd_sha256_file 1 fs_a openssl None
       (Some (hash0 zero_junk)) (Some 0%Z)
     = Some {| rc := 1; hash_after := Some (hash0 zero_junk);
               bytes_after := Some 0%Z; trace := [] |}.
Proof.
  assert (H : @None string = None \/ Some (hash0 zero_junk) = None
              \/ Some 0%Z = None) by (left; reflexivity).
  split; [exact H|].
  exact (proj1 (null_arguments_rejected 1 fs_a openssl
                  zero_junk None (Some (hash0 zero_junk)) (Some 0%Z)
                  (hash0 zero_junk) 0 H)).
Defined.

(** * Further properties of the code *)

(** As before, the proofs use nothing about the size of the buffer but that
    it is positive. *)
Opaque sizeof_buf.

(** ** Hex encoding of a prefix, and reading it back *)

Section hex_more.
Local Open Scope nat_scope.

Lemma hex_of_bytes_app (a b : list byte) :
  hex_of_bytes (a ++ b) = hex_of_bytes a ++ hex_of_bytes b.
Proof. unfold hex_of_bytes. rewrite fmap_app, concat_app. reflexivity. Qed.

Lemma hex_decode_byte (b : byte) (rest : list ascii) :
  hex_decode (byte_hex b ++ rest)
  = match hex_decode rest with Some bs => Some (b :: bs) | None => None end.
Proof.
  destruct b; cbn [byte_hex app hex_decode]; vm_compute nibble_value;
    cbv iota beta; destruct (hex_decode rest); reflexivity.
Qed.

Lemma hex_decode_encode (bs : list byte) : hex_decode (hex_of_bytes bs) = Some bs.
Proof.
  induction bs as [|b bs IH]; [reflexivity|].
  change (hex_of_bytes (b :: bs)) with (byte_hex b ++ hex_of_bytes bs).
  rewrite hex_decode_byte, IH. reflexivity.
Qed.

End hex_more.

(** X1: [sfd_hex_encode_lower] reads only the first [len] bytes of its
    argument: with [len] within the array and room for [2 * len + 1]
    characters, the destination receives the encoding of those [len]
    bytes, a NUL, and keeps its later cells; arrays that agree on their
    first [len] bytes give the same result.  In particular [len = 0]
    stores only the NUL. *)
Theorem sfd_hex_encode_lower_prefix (bytes : list byte) (len : nat)
  (out_hex : list ascii) :
  (len <= length bytes)%nat ->
  (2 * len < length out_hex)%nat ->
  sfd_hex_encode_lower bytes len out_hex
  = hex_of_bytes (take len bytes) ++ zero :: drop (2 * len + 1) out_hex
  /\ (forall bytes', take len bytes' = take len bytes ->
        sfd_hex_encode_lower bytes' len out_hex
        = sfd_hex_encode_lower bytes len out_hex)
  /\ (len = 0%nat ->
        c_string (sfd_hex_encode_lower bytes len out_hex) = EmptyString).
Proof.
  intros Hlen Hout.
  assert (Hspec : forall bs, (len <= length bs)%nat ->
            sfd_hex_encode_lower bs len out_hex
            = hex_of_bytes (take len bs) ++ zero :: drop (2 * len + 1) out_hex).
  { intros bs Hbs.
    assert (Hl : length (take len bs) = len) by (rewrite length_take; lia).
    pose proof (sfd_hex_encode_lower_spec (take len bs) out_hex) as Hs.
    rewrite Hl in Hs. rewrite <- Hs by lia.
    unfold sfd_hex_encode_lower. f_equal.
    rewrite !hex_encode_loop_spec by (rewrite ?Hl; lia).
    rewrite !drop_0, take_take, Nat.min_id. reflexivity. }
  split; [apply Hspec, Hlen|].
  split.
  - intros bytes' Hsame.
    assert (Hlen' : (len <= length bytes')%nat).
    { apply (f_equal length) in Hsame. rewrite !length_take in Hsame. lia. }
    rewrite !Hspec by assumption. rewrite Hsame. reflexivity.
  - intros ->. rewrite Hspec by lia. reflexivity.
Qed.

(** X2: the encoding can be read back: decoding the C string that
    [sfd_hex_encode_lower] leaves gives the bytes encoded, so two arrays
    with the same hex text are the same array. *)
Theorem sfd_hex_encode_lower_injective (bytes1 bytes2 : list byte)
  (out1 out2 : list ascii) :
  (2 * length bytes1 < length out1)%nat ->
  (2 * length bytes2 < length out2)%nat ->
  hex_decode (list_ascii_of_string
                (c_string (sfd_hex_encode_lower bytes1 (length bytes1) out1)))
  = Some bytes1
  /\ (c_string (sfd_hex_encode_lower bytes1 (length bytes1) out1)
      = c_string (sfd_hex_encode_lower bytes2 (length bytes2) out2) ->
      bytes1 = bytes2).
Proof.
  intros H1 H2.
  assert (Hback : forall bs out, (2 * length bs < length out)%nat ->
            hex_decode (list_ascii_of_string
                          (c_string (sfd_hex_encode_lower bs (length bs) out)))
            = Some bs).
  { intros bs out Hout.
    rewrite sfd_hex_encode_lower_spec by exact Hout.
    rewrite c_string_terminated by apply hex_of_bytes_nonzero.
    rewrite list_ascii_of_string_of_list_ascii. apply hex_decode_encode. }
  split; [apply Hback, H1|].
  intros Heq. pose proof (Hback bytes1 out1 H1) as Hb1.
  rewrite Heq, (Hback bytes2 out2 H2) in Hb1. congruence.
Qed.

(** ** What the traces of the hasher contain *)

Section traces.
Local Open Scope nat_scope.

Lemma count_events_app (f : event -> bool) (tr1 tr2 : list event) :
  count_events f (tr1 ++ tr2) = count_events f tr1 + count_events f tr2.
Proof.
  induction tr1 as [|e tr1 IH]; [reflexivity|].
  cbn [app count_events]. rewrite IH. lia.
Qed.

Lemma count_read_events (f : event -> bool) (buf : list byte) :
  ignores_reading f -> count_events f (read_events buf) = 0.
Proof.
  intros [Hread Hupd]. destruct buf as [|b buf]; cbn [read_events count_events];
    rewrite ?Hread, ?Hupd; reflexivity.
Qed.

Lemma count_reading (f : event -> bool) (full : list (list byte)) :
  ignores_reading f -> count_events f (reading full) = 0.
Proof.
  intros Hf. unfold reading. induction full as [|c full IH]; [reflexivity|].
  rewrite fmap_cons. cbn [concat].
  rewrite count_events_app, count_read_events, IH by exact Hf. reflexivity.
Qed.

Lemma count_zero_not_in (f : event -> bool) (tr : list event) (e : event) :
  count_events f tr = 0 -> f e = true -> ~ In e tr.
Proof.
  induction tr as [|e' tr IH]; intros Hcount He Hin; [destruct Hin|].
  cbn [count_events] in Hcount. destruct Hin as [-> | Hin].
  - rewrite He in Hcount. discriminate.
  - apply IH; [lia | exact He | exact Hin].
Qed.

Lemma full_buffer_lengths (full : list (list byte)) :
  Forall (fun c => length c = sizeof_buf) full ->
  length <$> full = replicate (length full) sizeof_buf
  /\ length (concat full) = length full * sizeof_buf.
Proof.
  induction 1 as [|c full Hc _ [IH1 IH2]]; [split; reflexivity|].
  rewrite fmap_cons. cbn [concat length replicate].
  rewrite length_app, IH1, IH2, Hc. split; [reflexivity | lia].
Qed.

End traces.

(** Rewrites the count of a test over the trace of an exit path. *)
Ltac count_trace :=
  cbn [trace]; unfold opened;
  rewrite ?count_events_app, ?count_reading, ?count_read_events
    by (split; reflexivity);
  cbn [count_events is_fopen_ok is_fclose is_ctx_new_ok is_ctx_free is_final
       Nat.add].

(** X3: the file and the digest context never leak and are never released
    twice.  In the trace of every call, whatever its arguments and its
    return value, there are as many [fclose] as successful [fopen], as
    many [EVP_MD_CTX_free] as successful [EVP_MD_CTX_new], at most one of
    each, and when there is an [fclose] it is the last action.  This
    includes the return at line 33, where the context could not be
    created and only the file has to be closed. *)
Theorem handles_balanced (fuel : nat) (fs : string -> option disk_file)
  (p : evp_provider) (path : option string) (out_hash : option (list byte))
  (out_bytes : option Z) (r : hash_result) :
  sfd_sha256_file fuel fs p path out_hash out_bytes = Some r ->
  count_events is_fopen_ok (trace r) = count_events is_fclose (trace r)
  /\ count_events is_ctx_new_ok (trace r) = count_events is_ctx_free (trace r)
  /\ (count_events is_fclose (trace r) <= 1)%nat
  /\ (count_events is_ctx_free (trace r) <= 1)%nat
  /\ (count_events is_fclose (trace r) = 1%nat -> last (trace r) = Some Fclose).
Proof.
  intros Hrun.
  assert (Hnull : path = None \/ out_hash = None \/ out_bytes = None ->
                  trace r = []).
  { intros H. rewrite sfd_sha256_file_null in Hrun by exact H.
    injection Hrun as <-. reflexivity. }
  destruct path as [path|]; [| rewrite (Hnull ltac:(auto)); cbn; repeat split; lia].
  destruct out_hash as [hash|]; [| rewrite (Hnull ltac:(auto)); cbn; repeat split; lia].
  destruct out_bytes as [b|]; [| rewrite (Hnull ltac:(auto)); cbn; repeat split; lia].
  clear Hnull.
  destruct (fs path) as [d|] eqn:Hfs.
  - apply (sfd_sha256_file_exit_path fs p fuel path d hash b r Hfs) in Hrun.
    destruct Hrun; count_trace;
      (split; [reflexivity|]); (split; [reflexivity|]);
      (split; [lia|]); (split; [lia|]); intros _;
      rewrite ?app_assoc;
      match goal with
      | |- last (?l ++ [?x; ?y; ?z; Fclose]) = _ =>
          change (l ++ [x; y; z; Fclose]) with (l ++ [x; y; z] ++ [Fclose]);
          rewrite app_assoc; apply last_snoc
      | |- last (?l ++ [?x; ?y; Fclose]) = _ =>
          change (l ++ [x; y; Fclose]) with (l ++ [x; y] ++ [Fclose]);
          rewrite app_assoc; apply last_snoc
      | |- last (?l ++ [?x; Fclose]) = _ =>
          change (l ++ [x; Fclose]) with (l ++ [x] ++ [Fclose]);
          rewrite app_assoc; apply last_snoc
      | |- _ => reflexivity
      end.
  - rewrite sfd_sha256_file_not_opened in Hrun by exact Hfs.
    injection Hrun as <-. cbn. repeat split; lia.
Qed.

(** ** Sizes of reads and updates *)

Section sizes.
Local Open Scope nat_scope.

Variable p : evp_provider.

Lemma loop_body_sized (f : FILE) (ctx : EVP_MD_CTX) (cnt : Z) (tr : list event) :
  Forall event_sized tr ->
  match loop_body p f ctx cnt tr with
  | Exit ex => Forall event_sized (exit_trace ex)
  | Continue _ _ _ tr' => Forall event_sized tr'
  end.
Proof.
  intros Htr. unfold loop_body, fread.
  set (buf := take sizeof_buf (pending f)).
  assert (Hle : length buf <= sizeof_buf)
    by (unfold buf; rewrite length_take; lia).
  assert (Hread : Forall event_sized (tr ++ [Fread (length buf)])).
  { apply Forall_app. split; [exact Htr|]. repeat constructor. exact Hle. }
  destruct (0 <? length buf) eqn:Hpos.
  - apply Nat.ltb_lt in Hpos.
    assert (Hupd : forall ok, Forall event_sized [DigestUpdate buf ok])
      by (intros ok; repeat constructor; cbn [event_sized]; lia).
    unfold EVP_DigestUpdate.
    destruct (digest_update_ok p ctx buf); cbn [negb Z.eqb].
    + destruct (length buf <? sizeof_buf); [|apply Forall_app; auto].
      destruct (feof _); [cbn [exit_trace]; apply Forall_app; auto|].
      destruct (ferror _); [|apply Forall_app; auto].
      cbn [exit_trace]. repeat (apply Forall_app; split); auto.
      repeat constructor.
    + cbn [exit_trace]. apply Forall_app. split; [exact Hread|].
      apply (Forall_app _ [_] [_; _]). split; [apply Hupd | repeat constructor].
  - destruct (length buf <? sizeof_buf); [|exact Hread].
    destruct (feof _); [exact Hread|].
    destruct (ferror _); [|exact Hread].
    cbn [exit_trace]. apply Forall_app. split; [exact Hread | repeat constructor].
Qed.

Lemma read_loop_sized (fuel : nat) :
  forall (f : FILE) (ctx : EVP_MD_CTX) (cnt : Z) (tr : list event) (ex : loop_exit),
    Forall event_sized tr ->
    read_loop fuel p f ctx cnt tr = Some ex ->
    Forall event_sized (exit_trace ex).
Proof.
  induction fuel as [|fuel IH]; intros f ctx cnt tr ex Htr Hrun; [discriminate|].
  cbn [read_loop] in Hrun.
  pose proof (loop_body_sized f ctx cnt tr Htr) as Hbody.
  destruct (loop_body p f ctx cnt tr) as [ex' | f' ctx' cnt' tr'].
  - injection Hrun as <-. exact Hbody.
  - exact (IH f' ctx' cnt' tr' ex Hbody Hrun).
Qed.

End sizes.

(** X4: [EVP_DigestUpdate] is never called with no data, and no read or
    update is larger than the staging buffer: in the trace of every call,
    each read returned at most [sizeof(buf)] bytes and each update, whether
    it succeeded or not, was given between 1 and [sizeof(buf)] bytes. *)
Theorem updates_never_empty (fuel : nat) (fs : string -> option disk_file)
  (p : evp_provider) (path : option string) (out_hash : option (list byte))
  (out_bytes : option Z) (r : hash_result) :
  sfd_sha256_file fuel fs p path out_hash out_bytes = Some r ->
  (forall n, In (Fread n) (trace r) -> (n <= sizeof_buf)%nat)
  /\ (forall data ok, In (DigestUpdate data ok) (trace r) ->
        (0 < length data <= sizeof_buf)%nat).
Proof.
  intros Hrun.
  assert (Hall : Forall event_sized (trace r)).
  { unfold sfd_sha256_file in Hrun.
    destruct path as [path|], out_hash as [hash|], out_bytes as [b|];
      try (injection Hrun as <-; constructor).
    destruct (fopen fs path) as [f|];
      [| injection Hrun as <-; repeat constructor].
    destruct (EVP_MD_CTX_new p) as [ctx|];
      [| injection Hrun as <-; repeat constructor].
    destruct (EVP_DigestInit_ex p ctx) as [ri ctx1].
    destruct (negb (ri =? 1)%Z);
      [injection Hrun as <-; repeat constructor|].
    destruct (read_loop _ _ _ _ _ _) as [ex|] eqn:Hloop; [|discriminate].
    apply read_loop_sized in Hloop; [| repeat constructor].
    destruct ex as [ctx' cnt' tr' | rc' cnt' tr']; cbn [exit_trace] in Hloop;
      [| injection Hrun as <-; exact Hloop].
    destruct (EVP_DigestFinal_ex p ctx') as [rf md].
    destruct (negb (rf =? 1)%Z);
      [injection Hrun as <-; apply Forall_app; split;
       [exact Hloop | repeat constructor]|].
    destruct (negb (length md =? SFD_SHA256_LEN)%nat);
      injection Hrun as <-; apply Forall_app; split;
      first [exact Hloop | repeat constructor]. }
  rewrite Forall_forall in Hall.
  split.
  - intros n Hin. exact (Hall _ (proj2 (list_elem_of_In _ _) Hin)).
  - intros data ok Hin. exact (Hall _ (proj2 (list_elem_of_In _ _) Hin)).
Qed.

(** X5: how many times the file is read.  On a run that does not end in a
    hashing error the loop performs one read of [sizeof(buf)] bytes for
    each full buffer the stream delivers and then exactly one more read,
    of the remaining bytes; for a stream whose length is a multiple of the
    buffer size that last read returns nothing. *)
Theorem reads_per_buffer (fuel : nat) (fs : string -> option disk_file)
  (p : evp_provider) (path : string) (d : disk_file) (hash : list byte) (b : Z)
  (r : hash_result) :
  fs path = Some d ->
  sfd_sha256_file fuel fs p (Some path) (Some hash) (Some b) = Some r ->
  rc r <> 3%Z ->
  reads (trace r)
  = replicate (length (delivered d) / sizeof_buf) sizeof_buf
      ++ [(length (delivered d) mod sizeof_buf)%nat].
Proof.
  intros Hfs Hrun Hrc.
  pose proof sizeof_buf_pos as Hpos.
  apply (sfd_sha256_file_exit_path fs p fuel path d hash b r Hfs) in Hrun.
  assert (Hshape : forall full last tail,
            chunked (delivered d) full last [] -> (length last < sizeof_buf)%nat ->
            reads tail = [] ->
            reads (opened path ++ reading full ++ read_events last ++ tail)
            = replicate (length (delivered d) / sizeof_buf) sizeof_buf
                ++ [(length (delivered d) mod sizeof_buf)%nat]).
  { intros full last tail Hch Hlt Htail.
    rewrite !reads_app, reads_reading, reads_read_events, Htail.
    cbn [opened reads app]. rewrite ?app_nil_r.
    pose proof (chunked_all _ _ _ Hch) as Hdel.
    destruct Hch as (_ & Hfull & _).
    destruct (full_buffer_lengths full Hfull) as [Hlens Hcat].
    assert (Hlen : length (delivered d)
                   = (sizeof_buf * length full + length last)%nat)
      by (rewrite Hdel, length_app, Hcat; lia).
    rewrite Hlens.
    rewrite <- (Nat.div_unique _ _ _ _ Hlt Hlen).
    rewrite <- (Nat.mod_unique _ _ _ _ Hlt Hlen). reflexivity. }
  destruct Hrun; cbn [rc trace] in *; try congruence;
    apply Hshape; auto.
Qed.

(** ** Order of the operations *)

(** X6: the digest is finalised only over the whole file.  If the trace of
    a call contains an [EVP_DigestFinal_ex], then the device did not fail,
    it is the only finalisation of the call, and it is followed only by
    the release of the context and of the file.  The actions before it fed
    every byte of the file to the context, which held exactly those bytes
    when it was finalised: the outcome recorded is the one the provider
    gives on the contents of the file.  The counter is the size of the
    file. *)
Theorem finalised_only_after_whole_file (fuel : nat)
  (fs : string -> option disk_file) (p : evp_provider) (path : string)
  (d : disk_file) (hash : list byte) (b : Z) (r : hash_result)
  (ok : bool) (md_len : nat) :
  fs path = Some d ->
  sfd_sha256_file fuel fs p (Some path) (Some hash) (Some b) = Some r ->
  In (DigestFinal ok md_len) (trace r) ->
  fault_hit d = false
  /\ fed (trace r) = content d
  /\ bytes_after r = Some (Z.of_nat (length (content d)) mod UINT64_MOD)%Z
  /\ count_events is_final (trace r) = 1%nat
  /\ DigestFinal ok md_len = final_event p (content d)
  /\ exists before,
       trace r = before ++ [DigestFinal ok md_len; MdCtxFree; Fclose]
       /\ fed before = content d
       /\ ctx_after p [] before = Some (content d)
       /\ count_events is_final before = 0%nat.
Proof.
  intros Hfs Hrun Hin.
  pose proof (sfd_sha256_file_ctx fuel fs p _ _ _ r Hrun) as Hctx.
  apply (sfd_sha256_file_exit_path fs p fuel path d hash b r Hfs) in Hrun.
  assert (Hnone : count_events is_final (trace r) = 0%nat -> False).
  { intros Hcount.
    exact (count_zero_not_in is_final _ (DigestFinal ok md_len) Hcount eq_refl Hin). }
  assert (Hend : forall full last ok' md_len',
            chunked (delivered d) full last [] -> fault_hit d = false ->
            DigestFinal ok' md_len' = final_event p (delivered d) ->
            trace r = opened path ++ reading full ++ read_events last
                        ++ [DigestFinal ok' md_len'; MdCtxFree; Fclose] ->
            fed (trace r) = content d
            /\ count_events is_final (trace r) = 1%nat
            /\ DigestFinal ok md_len = final_event p (content d)
            /\ exists before,
                 trace r = before ++ [DigestFinal ok md_len; MdCtxFree; Fclose]
                 /\ fed before = content d
                 /\ ctx_after p [] before = Some (content d)
                 /\ count_events is_final before = 0%nat).
  { intros full last ok' md_len' Hch Hf Hev Htr.
    rewrite Htr in Hctx, Hin |- *.
    pose proof (chunked_all _ _ _ Hch) as Hdel.
    rewrite (delivered_no_fault d Hf) in Hdel, Hev.
    assert (Hbefore : count_events is_final
                        (opened path ++ reading full ++ read_events last) = 0%nat)
      by (count_trace; reflexivity).
    assert (Hsame : DigestFinal ok md_len = DigestFinal ok' md_len').
    { rewrite !app_assoc in Hin. apply in_app_or in Hin.
      rewrite <- !app_assoc in Hin.
      destruct Hin as [Hin | [Hin | [Hin | [Hin | []]]]];
        [| symmetry; exact Hin | discriminate Hin | discriminate Hin].
      exfalso.
      exact (count_zero_not_in is_final _ (DigestFinal ok md_len) Hbefore eq_refl Hin). }
    rewrite Hsame.
    split; [rewrite fed_read_to_end by reflexivity; symmetry; exact Hdel|].
    split; [count_trace; reflexivity|].
    split; [exact Hev|].
    exists (opened path ++ reading full ++ read_events last).
    split; [rewrite <- !app_assoc; reflexivity|].
    split; [rewrite <- (app_nil_r (read_events last)), fed_read_to_end by reflexivity;
            symmetry; exact Hdel|].
    split; [| exact Hbefore].
    rewrite Hdel.
    apply (ctx_after_read_to_end p path full last [DigestFinal ok' md_len']);
      [right; eauto | exact Hctx]. }
  destruct Hrun as [Hnew | Hnew Hinit
                    | full last rest Hnew Hinit Hch Hupd
                    | full last Hnew Hinit Hch Hlt Hf
                    | full last Hnew Hinit Hch Hlt Hf Hfin
                    | full last md Hnew Hinit Hch Hlt Hf Hfin Hmd
                    | full last md Hnew Hinit Hch Hlt Hf Hfin Hmd];
    try (exfalso; apply Hnone; count_trace; reflexivity);
    (split; [exact Hf|]);
    cbn [trace bytes_after] in *;
    [ destruct (Hend full last false 0%nat Hch Hf) as (H1 & H2 & H3 & H4)
    | destruct (Hend full last true (length md) Hch Hf) as (H1 & H2 & H3 & H4)
    | destruct (Hend full last true (length md) Hch Hf) as (H1 & H2 & H3 & H4) ];
    try (unfold final_event; rewrite Hfin; reflexivity);
    try reflexivity;
    rewrite (delivered_no_fault d Hf);
    auto.
Qed.

(** X7: the contents of the file are not touched before the digest is
    ready.  When the context cannot be created or initialised, the call
    returns 3 without a single read, with the counter at 0 and the
    [out_hash] array as it was. *)
Theorem no_read_before_digest_ready (fuel : nat)
  (fs : string -> option disk_file) (p : evp_provider) (path : string)
  (d : disk_file) (hash : list byte) (b : Z) (r : hash_result) :
  fs path = Some d ->
  sfd_sha256_file fuel fs p (Some path) (Some hash) (Some b) = Some r ->
  ctx_new_ok p = false \/ digest_init_ok p = false ->
  rc r = 3%Z /\ reads (trace r) = [] /\ fed (trace r) = []
  /\ bytes_after r = Some 0%Z /\ hash_after r = Some hash.
Proof.
  intros Hfs Hrun Hbad.
  apply (sfd_sha256_file_exit_path fs p fuel path d hash b r Hfs) in Hrun.
  destruct Hrun; destruct Hbad; try congruence; repeat split.
Qed.

(** X8: a refused update takes precedence over a read error.  When the
    first read returns bytes and the update of those bytes fails, the call
    returns 3 with the counter still at 0, also when that same read was cut
    short by a device failure and left the error indicator set. *)
Theorem update_failure_precedes_read_error (fuel : nat)
  (fs : string -> option disk_file) (p : evp_provider) (path : string)
  (d : disk_file) (hash : list byte) (b : Z) :
  (0 < fuel)%nat ->
  fs path = Some d ->
  ctx_new_ok p = true -> digest_init_ok p = true ->
  delivered d <> [] ->
  digest_update_ok p [] (take sizeof_buf (delivered d)) = false ->
  sfd_sha256_file fuel fs p (Some path) (Some hash) (Some b)
  = Some {| rc := 3; hash_after := Some hash; bytes_after := Some 0%Z;
            trace := opened path
                       ++ [Fread (length (take sizeof_buf (delivered d)));
                           DigestUpdate (take sizeof_buf (delivered d)) false;
                           MdCtxFree; Fclose] |}.
Proof.
  intros Hfuel Hfs Hnew Hinit Hdata Hupd.
  pose proof sizeof_buf_pos as Hpos.
  unfold sfd_sha256_file, fopen, EVP_MD_CTX_new, EVP_DigestInit_ex.
  rewrite Hfs, Hnew, Hinit. cbn [negb Z.eqb].
  destruct fuel as [|fuel']; [lia|].
  cbn [read_loop]. unfold loop_body, fread. cbn [pending].
  assert (Hn : (0 <? length (take sizeof_buf (delivered d)))%nat = true).
  { apply Nat.ltb_lt. rewrite length_take.
    destruct (delivered d); [congruence | cbn [length]; lia]. }
  rewrite Hn. unfold EVP_DigestUpdate. rewrite Hupd. reflexivity.
Qed.

(** X9: the return value 1 is kept for NULL arguments: a call returns 1
    exactly when [path], [out_hash] or [out_bytes] is NULL. *)
Theorem returns_one_iff_null (fuel : nat) (fs : string -> option disk_file)
  (p : evp_provider) (path : option string) (out_hash : option (list byte))
  (out_bytes : option Z) (r : hash_result) :
  sfd_sha256_file fuel fs p path out_hash out_bytes = Some r ->
  rc r = 1%Z <-> (path = None \/ out_hash = None \/ out_bytes = None).
Proof.
  intros Hrun. split.
  - intros Hrc.
    destruct path as [path|]; [|auto].
    destruct out_hash as [hash|]; [|auto].
    destruct out_bytes as [b|]; [|auto].
    destruct (sfd_sha256_file_codes _ _ _ _ _ _ _ Hrun) as [H | [H | H]];
      rewrite H in Hrc; discriminate.
  - intros Hnull. rewrite sfd_sha256_file_null in Hrun by exact Hnull.
    injection Hrun as <-. reflexivity.
Qed.

(** ** The hasher and the CLI with a digest library that works *)

(** With the provider that works, a device failure ends the call with the
    I/O error code after everything delivered was fed and counted. *)
Lemma sfd_sha256_file_openssl_fault (fuel : nat) (fs : string -> option disk_file)
  (path : string) (d : disk_file) (hash : list byte) (b : Z) :
  fs path = Some d -> fault_hit d = true -> enough_fuel fuel (delivered d) ->
  exists r,
    sfd_sha256_file fuel fs openssl (Some path) (Some hash) (Some b) = Some r
    /\ rc r = 2%Z /\ hash_after r = Some hash
    /\ bytes_after r = Some (Z.of_nat (length (delivered d)) mod UINT64_MOD)%Z
    /\ fed (trace r) = delivered d.
Proof.
  intros Hfs Hfault Hfuel.
  destruct (sfd_sha256_file_returns fs openssl fuel (Some path) (Some hash) (Some b))
    as [r Hrun].
  { intros s d' [= <-] Hd'. rewrite Hfs in Hd'. injection Hd' as <-. exact Hfuel. }
  exists r. split; [exact Hrun|].
  apply (sfd_sha256_file_exit_path fs openssl fuel path d hash b r Hfs) in Hrun.
  destruct Hrun as [Hnew | Hnew Hinit
                    | full last rest Hnew Hinit Hch Hupd
                    | full last Hnew Hinit Hch Hlt Hf
                    | full last Hnew Hinit Hch Hlt Hf Hfin
                    | full last md Hnew Hinit Hch Hlt Hf Hfin Hmd
                    | full last md Hnew Hinit Hch Hlt Hf Hfin Hmd];
    cbn [openssl ctx_new_ok digest_init_ok digest_update_ok digest_final] in *;
    try congruence.
  cbn [rc hash_after bytes_after trace].
  rewrite fed_read_to_end by reflexivity.
  rewrite <- (chunked_all _ _ _ Hch). repeat split.
Qed.

(** X10: with a digest library that works, the file alone decides the
    outcome of [sfd_sha256_file].  Given a 32-byte [out_hash] array, the
    call returns; everything the stream delivered has been fed to the
    digest and counted; if the device failed the result is 2 and
    [out_hash] is untouched; otherwise the result is 0 and [out_hash]
    holds exactly the SHA-256 of the file. *)
Theorem hasher_outcome_with_working_digest (fuel : nat)
  (fs : string -> option disk_file) (path : string) (d : disk_file)
  (hash : list byte) (b : Z) :
  fs path = Some d ->
  length hash = SFD_SHA256_LEN ->
  enough_fuel fuel (delivered d) ->
  exists r,
    sfd_sha256_file fuel fs openssl (Some path) (Some hash) (Some b) = Some r
    /\ bytes_after r = Some (Z.of_nat (length (delivered d)) mod UINT64_MOD)%Z
    /\ (if fault_hit d
        then rc r = 2%Z /\ hash_after r = Some hash
        else rc r = 0%Z /\ hash_after r = Some (SHA256.digest (content d))).
Proof.
  intros Hfs Hhash Hfuel.
  destruct (fault_hit d) eqn:Hfault.
  - destruct (sfd_sha256_file_openssl_fault fuel fs path d hash b Hfs Hfault Hfuel)
      as (r & Hrun & Hrc & Hh & Hb & _).
    exists r. auto.
  - pose proof (delivered_no_fault d Hfault) as Hdel.
    rewrite Hdel in *.
    destruct (sfd_sha256_file_openssl fuel fs path d hash b Hfs Hfault Hfuel)
      as (r & Hrun & Hrc & Hh & Hb).
    exists r. rewrite drop_ge, app_nil_r in Hh by lia. auto.
Qed.

(** A [return] from inside the loop carries the value 2 or 3. *)
Lemma read_loop_return_codes (p : evp_provider) (fuel : nat) :
  forall (f : FILE) (ctx : EVP_MD_CTX) (cnt : Z) (tr : list event)
         (rc' : Z) (cnt' : Z) (tr' : list event),
    read_loop fuel p f ctx cnt tr = Some (Return rc' cnt' tr') ->
    rc' = 2%Z \/ rc' = 3%Z.
Proof.
  induction fuel as [|fuel IH]; intros f ctx cnt tr rc' cnt' tr' Hrun;
    [discriminate|].
  cbn [read_loop] in Hrun.
  destruct (loop_body p f ctx cnt tr) as [ex | f1 ctx1 cnt1 tr1] eqn:Hbody;
    [| exact (IH _ _ _ _ _ _ _ Hrun)].
  injection Hrun as ->.
  unfold loop_body in Hbody.
  destruct (fread f sizeof_buf) as [buf f1].
  destruct (EVP_DigestUpdate p ctx buf) as [ru ctx1].
  repeat match type of Hbody with
         | (if ?c then _ else _) = _ => destruct c
         end;
    try discriminate; injection Hbody as <- _ _; auto.
Qed.

(** The outcome of the hasher does not depend on what the [out_hash] array
    held, except that on failure the array is handed back as it was. *)
Lemma sfd_sha256_file_hash_irrelevant (fuel : nat) (fs : string -> option disk_file)
  (p : evp_provider) (path : string) (h1 h2 : list byte) (b : Z) (r1 : hash_result) :
  sfd_sha256_file fuel fs p (Some path) (Some h1) (Some b) = Some r1 ->
  exists r2,
    sfd_sha256_file fuel fs p (Some path) (Some h2) (Some b) = Some r2
    /\ rc r2 = rc r1 /\ bytes_after r2 = bytes_after r1 /\ trace r2 = trace r1
    /\ ((rc r1 <> 0%Z /\ hash_after r1 = Some h1 /\ hash_after r2 = Some h2)
        \/ (rc r1 = 0%Z /\ exists md,
              length md = SFD_SHA256_LEN
              /\ hash_after r1 = Some (memcpy h1 md SFD_SHA256_LEN)
              /\ hash_after r2 = Some (memcpy h2 md SFD_SHA256_LEN))).
Proof.
  intros Hrun. unfold sfd_sha256_file in *.
  destruct (fopen fs path) as [f|];
    [| injection Hrun as <-; eexists; cbn; auto 10 with congruence].
  destruct (EVP_MD_CTX_new p) as [ctx|];
    [| injection Hrun as <-; eexists; cbn; auto 10 with congruence].
  destruct (EVP_DigestInit_ex p ctx) as [ri ctx1].
  destruct (negb (ri =? 1)%Z);
    [injection Hrun as <-; eexists; cbn; auto 10 with congruence|].
  destruct (read_loop _ _ _ _ _ _) as [[ctx' cnt' tr' | rc' cnt' tr']|] eqn:Hloop;
    [| | discriminate].
  - destruct (EVP_DigestFinal_ex p ctx') as [rf md].
    destruct (negb (rf =? 1)%Z);
      [injection Hrun as <-; eexists; cbn; auto 10 with congruence|].
    destruct (length md =? SFD_SHA256_LEN)%nat eqn:Hmd; cbn [negb] in *;
      injection Hrun as <-; eexists; cbn [rc hash_after bytes_after trace].
    + apply Nat.eqb_eq in Hmd.
      split; [reflexivity|]. repeat (split; [reflexivity|]).
      right. split; [reflexivity|]. exists md. auto.
    + split; [reflexivity|]. repeat (split; [reflexivity|]).
      left. repeat split. discriminate.
  - injection Hrun as <-. eexists. cbn [rc hash_after bytes_after trace].
    split; [reflexivity|]. repeat (split; [reflexivity|]).
    left. repeat split.
    destruct (read_loop_return_codes _ _ _ _ _ _ _ _ _ Hloop) as [-> | ->];
      discriminate.
Qed.

(** On failure [main] prints the same whatever the arrays and the counter
    hold. *)
Lemma main_report_failure (junk1 junk2 : indeterminate) (rc' : Z)
  (hash1 hash2 : list byte) (bytes1 bytes2 : Z) :
  rc' <> 0%Z ->
  main_report junk1 rc' hash1 bytes1 = main_report junk2 rc' hash2 bytes2.
Proof.
  intros Hrc. unfold main_report.
  apply Z.eqb_neq in Hrc. rewrite Hrc. reflexivity.
Qed.

(** X11: [main] never shows indeterminate memory.  The arrays [hash] and
    [hex] are declared without an initialiser; whatever they hold at the
    start, the exit status and both output streams of the run are the
    same. *)
Theorem main_ignores_indeterminate (fuel : nat) (fs : string -> option disk_file)
  (p : evp_provider) (junk1 junk2 : indeterminate) (argv : list string) :
  main fuel fs p junk1 argv = main fuel fs p junk2 argv.
Proof.
  assert (Hone : forall j1 j2 prog path r1,
            sfd_sha256_file fuel fs p (Some path) (Some (hash0 j1)) (Some 0%Z)
            = Some r1 ->
            main fuel fs p j1 [prog; path] = main fuel fs p j2 [prog; path]).
  { intros j1 j2 prog path r1 Hrun1.
    destruct (sfd_sha256_file_hash_irrelevant fuel fs p path (hash0 j1) (hash0 j2)
                0 r1 Hrun1)
      as (r2 & Hrun2 & Hrc & Hbytes & _ & Hhash).
    rewrite !main_one_path, Hrun1, Hrun2, Hrc, Hbytes.
    destruct Hhash as [(Hne & _ & _) | (Hz & md & Hmd & -> & ->)].
    - f_equal. apply main_report_failure, Hne.
    - rewrite Hz. cbn [default]. unfold memcpy.
      rewrite !drop_ge, !app_nil_r by (rewrite length_hash0; reflexivity).
      rewrite take_ge by (rewrite Hmd; reflexivity).
      rewrite !main_report_success by exact Hmd.
      reflexivity. }
  destruct (Nat.eq_dec (length argv) 2%nat) as [Hargc | Hargc];
    [| rewrite !main_wrong_argc by exact Hargc; reflexivity].
  destruct argv as [|prog [|path [|x rest]]]; try discriminate.
  destruct (sfd_sha256_file fuel fs p (Some path) (Some (hash0 junk1)) (Some 0%Z))
    as [r1|] eqn:Hrun1; [exact (Hone junk1 junk2 prog path r1 Hrun1)|].
  destruct (sfd_sha256_file fuel fs p (Some path) (Some (hash0 junk2)) (Some 0%Z))
    as [r2|] eqn:Hrun2; [symmetry; exact (Hone junk2 junk1 prog path r2 Hrun2)|].
  rewrite !main_one_path, Hrun1, Hrun2. reflexivity.
Qed.

(** X12: the whole program with a digest library that works.  Called with
    one argument, [main] ends with the I/O error line and status 2 when the
    file cannot be opened or the device fails while it is read, and
    otherwise with status 0 and the success line carrying the SHA-256 of
    the file's bytes and their number. *)
Theorem main_with_working_digest (fuel : nat) (fs : string -> option disk_file)
  (junk : indeterminate) (prog path : string) :
  (forall d, fs path = Some d -> enough_fuel fuel (delivered d)) ->
  main fuel fs openssl junk [prog; path]
  = Some match fs path with
         | None => io_error_exit
         | Some d =>
             if fault_hit d then io_error_exit
             else success_exit (SHA256.digest (content d))
                               (Z.of_nat (length (content d)) mod UINT64_MOD)
         end.
Proof.
  intros Hfuel. rewrite main_one_path.
  destruct (fs path) as [d|] eqn:Hfs.
  - pose proof (Hfuel d eq_refl) as Hd.
    destruct (fault_hit d) eqn:Hfault.
    + destruct (sfd_sha256_file_openssl_fault fuel fs path d (hash0 junk) 0
                  Hfs Hfault Hd) as (r & -> & -> & _).
      reflexivity.
    + rewrite (delivered_no_fault d Hfault) in Hd.
      destruct (sfd_sha256_file_openssl fuel fs path d (hash0 junk) 0
                  Hfs Hfault Hd) as (r & -> & -> & -> & ->).
      cbn [default].
      rewrite drop_ge, app_nil_r by (rewrite length_hash0; reflexivity).
      rewrite main_report_success by apply digest_length. reflexivity.
  - rewrite sfd_sha256_file_not_opened by exact Hfs. reflexivity.
Qed.

(** X13: the return value when every update succeeds.  With the context
    created and initialised and no update refused, the call returns; a
    device failure gives 2 whatever the finalisation would have done;
    otherwise the finalisation decides: 0 when it yields 32 bytes, 3 when
    it fails or yields another number of bytes. *)
Theorem return_code_when_updates_succeed (fuel : nat)
  (fs : string -> option disk_file) (p : evp_provider) (path : string)
  (d : disk_file) (hash : list byte) (b : Z) :
  fs path = Some d ->
  enough_fuel fuel (delivered d) ->
  ctx_new_ok p = true -> digest_init_ok p = true ->
  (forall absorbed data, digest_update_ok p absorbed data = true) ->
  exists r,
    sfd_sha256_file fuel fs p (Some path) (Some hash) (Some b) = Some r
    /\ rc r = (if fault_hit d then 2
               else match digest_final p (delivered d) with
                    | Some md => if (length md =? 32)%nat then 0 else 3
                    | None => 3
                    end)%Z.
Proof.
  intros Hfs Hfuel Hnew Hinit Hupd.
  destruct (sfd_sha256_file_returns fs p fuel (Some path) (Some hash) (Some b))
    as [r Hrun].
  { intros s d' [= <-] Hd'. rewrite Hfs in Hd'. injection Hd' as <-. exact Hfuel. }
  exists r. split; [exact Hrun|].
  apply (sfd_sha256_file_exit_path fs p fuel path d hash b r Hfs) in Hrun.
  destruct Hrun as [Hnew' | Hnew' Hinit'
                    | full last rest Hnew' Hinit' Hch Hupd'
                    | full last Hnew' Hinit' Hch Hlt Hf
                    | full last Hnew' Hinit' Hch Hlt Hf Hfin
                    | full last md Hnew' Hinit' Hch Hlt Hf Hfin Hmd
                    | full last md Hnew' Hinit' Hch Hlt Hf Hfin Hmd];
    cbn [rc]; try congruence; rewrite Hf; try reflexivity; rewrite Hfin;
    try reflexivity.
  - apply Nat.eqb_neq in Hmd. unfold SFD_SHA256_LEN in Hmd. rewrite Hmd.
    reflexivity.
  - apply Nat.eqb_eq in Hmd. unfold SFD_SHA256_LEN in Hmd. rewrite Hmd.
    reflexivity.
Qed.

Lemma string_of_list_ascii_app (a b : list ascii) :
  string_of_list_ascii (a ++ b)
  = (string_of_list_ascii a ++ string_of_list_ascii b)%string.
Proof. induction a as [|c a IH]; [reflexivity|]. cbn. rewrite IH. reflexivity. Qed.

(** X14: the encoding works byte by byte: the hex text of two arrays put
    end to end is the hex text of the first followed by that of the
    second. *)
Theorem sfd_hex_encode_lower_app (bytes1 bytes2 : list byte)
  (out out1 out2 : list ascii) :
  (2 * length (bytes1 ++ bytes2) < length out)%nat ->
  (2 * length bytes1 < length out1)%nat ->
  (2 * length bytes2 < length out2)%nat ->
  c_string (sfd_hex_encode_lower (bytes1 ++ bytes2) (length (bytes1 ++ bytes2)) out)
  = (c_string (sfd_hex_encode_lower bytes1 (length bytes1) out1)
     ++ c_string (sfd_hex_encode_lower bytes2 (length bytes2) out2))%string.
Proof.
  intros H H1 H2.
  rewrite !sfd_hex_encode_lower_spec by assumption.
  rewrite !c_string_terminated by apply hex_of_bytes_nonzero.
  rewrite hex_of_bytes_app. apply string_of_list_ascii_app.
Qed.

(** ** The further properties at sample inputs *)

Lemma sfd_hex_encode_lower_prefix_witness :
  ((2 <= length [xca; xfe; x01])%nat
   /\ (2 * 2 < length (replicate 5 "x"%char))%nat)
  /\ sfd_hex_encode_lower [xca; xfe; x01] 2 (replicate 5 "x"%char)
     = hex_of_bytes (take 2 [xca; xfe; x01])
         ++ zero :: drop (2 * 2 + 1) (replicate 5 "x"%char).
Proof.
  assert (H1 : (2 <= length [xca; xfe; x01])%nat) by (cbn; lia).
  assert (H2 : (2 * 2 < length (replicate 5 "x"%char))%nat) by (cbn; lia).
  split; [exact (conj H1 H2)|].
  exact (proj1 (sfd_hex_encode_lower_prefix [xca; xfe; x01] 2
                  (replicate 5 "x"%char) H1 H2)).
Defined.

Lemma sfd_hex_encode_lower_injective_witness :
  ((2 * length [xca] < length (replicate 3 "x"%char))%nat
   /\ (2 * length [xfe] < length (replicate 4 "y"%char))%nat)
  /\ hex_decode (list_ascii_of_string
                   (c_string (sfd_hex_encode_lower [xca] (length [xca])
                                (replicate 3 "x"%char))))
     = Some [xca].
Proof.
  assert (H1 : (2 * length [xca] < length (replicate 3 "x"%char))%nat)
    by (cbn; lia).
  assert (H2 : (2 * length [xfe] < length (replicate 4 "y"%char))%nat)
    by (cbn; lia).
  split; [exact (conj H1 H2)|].
  exact (proj1 (sfd_hex_encode_lower_injective [xca] [xfe] (replicate 3 "x"%char)
                  (replicate 4 "y"%char) H1 H2)).
Defined.

Lemma handles_balanced_witness :
  sfd_sha256_file 1 fs_a no_context (Some "a.txt"%string)
    (Some (hash0 zero_junk)) (Some 0%Z)
  = Some {| rc := 3; hash_after := Some (hash0 zero_junk);
            bytes_after := Some 0%Z;
            trace := [Fopen "a.txt" true; MdCtxNew false; Fclose] |}
  /\ count_events is_fopen_ok [Fopen "a.txt" true; MdCtxNew false; Fclose]
     = count_events is_fclose [Fopen "a.txt" true; MdCtxNew false; Fclose]
  /\ count_events is_ctx_new_ok [Fopen "a.txt" true; MdCtxNew false; Fclose]
     = count_events is_ctx_free [Fopen "a.txt" true; MdCtxNew false; Fclose].
Proof.
  assert (H : sfd_sha256_file 1 fs_a no_context (Some "a.txt"%string)
                (Some (hash0 zero_junk)) (Some 0%Z)
              = Some {| rc := 3; hash_after := Some (hash0 zero_junk);
                        bytes_after := Some 0%Z;
                        trace := [Fopen "a.txt" true; MdCtxNew false; Fclose] |})
    by (vm_compute; reflexivity).
  split; [exact H|].
  destruct (handles_balanced 1 fs_a no_context (Some "a.txt"%string)
              (Some (hash0 zero_junk)) (Some 0%Z) _ H) as (Hf & Hc & _).
  exact (conj Hf Hc).
Defined.

Lemma updates_never_empty_witness :
  sfd_sha256_file 1 fs_torn openssl (Some "torn"%string)
    (Some (hash0 zero_junk)) (Some 0%Z) = Some result_torn
  /\ (forall data ok, In (DigestUpdate data ok) (trace result_torn) ->
        (0 < length data <= sizeof_buf)%nat).
Proof.
  assert (H : sfd_sha256_file 1 fs_torn openssl (Some "torn"%string)
                (Some (hash0 zero_junk)) (Some 0%Z) = Some result_torn)
    by (vm_compute; reflexivity).
  split; [exact H|].
  exact (proj2 (updates_never_empty 1 fs_torn openssl (Some "torn"%string)
                  (Some (hash0 zero_junk)) (Some 0%Z) result_torn H)).
Defined.

Lemma reads_per_buffer_witness :
  (fs_torn "torn"%string = Some file_torn
   /\ sfd_sha256_file 1 fs_torn openssl (Some "torn"%string)
        (Some (hash0 zero_junk)) (Some 0%Z) = Some result_torn
   /\ rc result_torn <> 3%Z)
  /\ reads (trace result_torn)
     = replicate (length (delivered file_torn) / sizeof_buf) sizeof_buf
         ++ [(length (delivered file_torn) mod sizeof_buf)%nat].
Proof.
  assert (H1 : fs_torn "torn"%string = Some file_torn) by reflexivity.
  assert (H2 : sfd_sha256_file 1 fs_torn openssl (Some "torn"%string)
                 (Some (hash0 zero_junk)) (Some 0%Z) = Some result_torn)
    by (vm_compute; reflexivity).
  assert (H3 : rc result_torn <> 3%Z) by discriminate.
  split; [exact (conj H1 (conj H2 H3))|].
  exact (reads_per_buffer 1 fs_torn openssl "torn" file_torn (hash0 zero_junk) 0
           result_torn H1 H2 H3).
Defined.

Lemma finalised_only_after_whole_file_witness :
  (fs_a "a.txt"%string = Some file_a
   /\ sfd_sha256_file 1 fs_a needs_input (Some "a.txt"%string)
        (Some (hash0 zero_junk)) (Some 0%Z) = Some result_a
   /\ In (DigestFinal true 32) (trace result_a))
  /\ fault_hit file_a = false
  /\ fed (trace result_a) = content file_a
  /\ DigestFinal true 32 = final_event needs_input (content file_a)
  /\ exists before,
       trace result_a = before ++ [DigestFinal true 32; MdCtxFree; Fclose]
       /\ fed before = content file_a
       /\ ctx_after needs_input [] before = Some (content file_a)
       /\ count_events is_final before = 0%nat.
Proof.
  assert (H1 : fs_a "a.txt"%string = Some file_a) by reflexivity.
  assert (H2 : sfd_sha256_file 1 fs_a needs_input (Some "a.txt"%string)
                 (Some (hash0 zero_junk)) (Some 0%Z) = Some result_a)
    by (vm_compute; reflexivity).
  assert (H3 : In (DigestFinal true 32) (trace result_a)).
  { do 5 right. left. reflexivity. }
  split; [exact (conj H1 (conj H2 H3))|].
  destruct (finalised_only_after_whole_file 1 fs_a needs_input "a.txt" file_a
              (hash0 zero_junk) 0 result_a true 32%nat H1 H2 H3)
    as (Hf & Hfed & _ & _ & Hev & Hbefore).
  exact (conj Hf (conj Hfed (conj Hev Hbefore))).
Defined.

Lemma no_read_before_digest_ready_witness :
  (fs_a "a.txt"%string = Some file_a
   /\ sfd_sha256_file 1 fs_a no_init (Some "a.txt"%string)
        (Some (hash0 zero_junk)) (Some 0%Z)
      = Some {| rc := 3; hash_after := Some (hash0 zero_junk);
                bytes_after := Some 0%Z;
                trace := [Fopen "a.txt" true; MdCtxNew true; DigestInit false;
                          MdCtxFree; Fclose] |}
   /\ (ctx_new_ok no_init = false \/ digest_init_ok no_init = false))
  /\ reads [Fopen "a.txt"%string true; MdCtxNew true; DigestInit false;
            MdCtxFree; Fclose] = [].
Proof.
  assert (H1 : fs_a "a.txt"%string = Some file_a) by reflexivity.
  assert (H2 : sfd_sha256_file 1 fs_a no_init (Some "a.txt"%string)
                 (Some (hash0 zero_junk)) (Some 0%Z)
               = Some {| rc := 3; hash_after := Some (hash0 zero_junk);
                         bytes_after := Some 0%Z;
                         trace := [Fopen "a.txt" true; MdCtxNew true;
                                   DigestInit false; MdCtxFree; Fclose] |})
    by (vm_compute; reflexivity).
  assert (H3 : ctx_new_ok no_init = false \/ digest_init_ok no_init = false)
    by (right; reflexivity).
  split; [exact (conj H1 (conj H2 H3))|].
  destruct (no_read_before_digest_ready 1 fs_a no_init "a.txt" file_a
              (hash0 zero_junk) 0 _ H1 H2 H3) as (_ & Hreads & _).
  exact Hreads.
Defined.

Lemma update_failure_precedes_read_error_witness :
  ((0 < 1)%nat /\ fs_torn "torn"%string = Some file_torn
   /\ ctx_new_ok no_update = true /\ digest_init_ok no_update = true
   /\ delivered file_torn <> []
   /\ digest_update_ok no_update [] (take sizeof_buf (delivered file_torn)) = false
   /\ fault_hit file_torn = true)
  /\ sfd_sha256_file 1 fs_torn no_update (Some "torn"%string)
       (Some (hash0 zero_junk)) (Some 0%Z)
     = Some {| rc := 3; hash_after := Some (hash0 zero_junk);
               bytes_after := Some 0%Z;
               trace := opened "torn"
                          ++ [Fread (length (take sizeof_buf (delivered file_torn)));
                              DigestUpdate (take sizeof_buf (delivered file_torn))
                                           false;
                              MdCtxFree; Fclose] |}.
Proof.
  assert (H0 : (0 < 1)%nat) by lia.
  assert (H1 : fs_torn "torn"%string = Some file_torn) by reflexivity.
  assert (H2 : ctx_new_ok no_update = true) by reflexivity.
  assert (H3 : digest_init_ok no_update = true) by reflexivity.
  assert (H4 : delivered file_torn <> []) by discriminate.
  assert (H5 : digest_update_ok no_update []
                 (take sizeof_buf (delivered file_torn)) = false) by reflexivity.
  assert (H6 : fault_hit file_torn = true) by reflexivity.
  split; [exact (conj H0 (conj H1 (conj H2 (conj H3 (conj H4 (conj H5 H6))))))|].
  exact (update_failure_precedes_read_error 1 fs_torn no_update "torn" file_torn
           (hash0 zero_junk) 0 H0 H1 H2 H3 H4 H5).
Defined.

Lemma returns_one_iff_null_witness :
  sfd_sha256_file 1 fs_a openssl (Some "a.txt"%string) None (Some 0%Z)
  = Some {| rc := 1; hash_after := None; bytes_after := Some 0%Z; trace := [] |}
  /\ (1 = 1 <-> (Some "a.txt"%string = None \/ @None (list byte) = None
                 \/ Some 0 = None))%Z.
Proof.
  assert (H : sfd_sha256_file 1 fs_a openssl (Some "a.txt"%string) None (Some 0%Z)
              = Some {| rc := 1; hash_after := None; bytes_after := Some 0%Z;
                        trace := [] |}) by reflexivity.
  split; [exact H|].
  exact (returns_one_iff_null 1 fs_a openssl (Some "a.txt"%string) None
           (Some 0%Z) _ H).
Defined.

Lemma hasher_outcome_with_working_digest_witness :
  (fs_a "a.txt"%string = Some file_a
   /\ length (hash0 zero_junk) = SFD_SHA256_LEN
   /\ enough_fuel 1 (delivered file_a))
  /\ exists r,
       sfd_sha256_file 1 fs_a openssl (Some "a.txt"%string)
         (Some (hash0 zero_junk)) (Some 0%Z) = Some r
       /\ bytes_after r
          = Some (Z.of_nat (length (delivered file_a)) mod UINT64_MOD)%Z.
Proof.
  assert (H1 : fs_a "a.txt"%string = Some file_a) by reflexivity.
  assert (H2 : length (hash0 zero_junk) = SFD_SHA256_LEN) by reflexivity.
  assert (H3 : enough_fuel 1 (delivered file_a))
    by (apply Nat.ltb_lt; vm_compute; reflexivity).
  split; [exact (conj H1 (conj H2 H3))|].
  destruct (hasher_outcome_with_working_digest 1 fs_a "a.txt" file_a
              (hash0 zero_junk) 0 H1 H2 H3) as (r & Hrun & Hbytes & _).
  exists r. exact (conj Hrun Hbytes).
Defined.

Lemma main_with_working_digest_witness :
  (forall d, fs_torn "torn"%string = Some d -> enough_fuel 1 (delivered d))
  /\ main 1 fs_torn openssl zero_junk ["program"; "torn"]%string
     = Some match fs_torn "torn"%string with
            | None => io_error_exit
            | Some d =>
                if fault_hit d then io_error_exit
                else success_exit (SHA256.digest (content d))
                                  (Z.of_nat (length (content d)) mod UINT64_MOD)
            end.
Proof.
  assert (H : forall d, fs_torn "torn"%string = Some d ->
                        enough_fuel 1 (delivered d)).
  { intros d Hd. change (Some file_torn = Some d) in Hd. injection Hd as <-.
    apply Nat.ltb_lt. vm_compute. reflexivity. }
  split; [exact H|].
  exact (main_with_working_digest 1 fs_torn zero_junk "program" "torn" H).
Defined.

Lemma return_code_when_updates_succeed_witness :
  (fs_a "a.txt"%string = Some file_a /\ enough_fuel 1 (delivered file_a)
   /\ ctx_new_ok short_final = true /\ digest_init_ok short_final = true
   /\ (forall absorbed data, digest_update_ok short_final absorbed data = true))
  /\ exists r,
       sfd_sha256_file 1 fs_a short_final (Some "a.txt"%string)
         (Some (hash0 zero_junk)) (Some 0%Z) = Some r
       /\ rc r = (if fault_hit file_a then 2
                  else match digest_final short_final (delivered file_a) with
                       | Some md => if (length md =? 32)%nat then 0 else 3
                       | None => 3
                       end)%Z.
Proof.
  assert (H1 : fs_a "a.txt"%string = Some file_a) by reflexivity.
  assert (H2 : enough_fuel 1 (delivered file_a))
    by (apply Nat.ltb_lt; vm_compute; reflexivity).
  assert (H3 : ctx_new_ok short_final = true) by reflexivity.
  assert (H4 : digest_init_ok short_final = true) by reflexivity.
  assert (H5 : forall absorbed data,
                 digest_update_ok short_final absorbed data = true)
    by (intros absorbed data; reflexivity).
  split; [exact (conj H1 (conj H2 (conj H3 (conj H4 H5))))|].
  exact (return_code_when_updates_succeed 1 fs_a short_final "a.txt" file_a
           (hash0 zero_junk) 0 H1 H2 H3 H4 H5).
Defined.

Lemma sfd_hex_encode_lower_app_witness :
  ((2 * length ([xca] ++ [xfe]) < length (replicate 5 "x"%char))%nat
   /\ (2 * length [xca] < length (replicate 3 "y"%char))%nat
   /\ (2 * length [xfe] < length (replicate 3 "z"%char))%nat)
  /\ c_string (sfd_hex_encode_lower ([xca] ++ [xfe]) (length ([xca] ++ [xfe]))
                 (replicate 5 "x"%char))
     = (c_string (sfd_hex_encode_lower [xca] (length [xca]) (replicate 3 "y"%char))
        ++ c_string (sfd_hex_encode_lower [xfe] (length [xfe])
                       (replicate 3 "z"%char)))%string.
Proof.
  assert (H : (2 * length ([xca] ++ [xfe]) < length (replicate 5 "x"%char))%nat)
    by (cbn; lia).
  assert (H1 : (2 * length [xca] < length (replicate 3 "y"%char))%nat)
    by (cbn; lia).
  assert (H2 : (2 * length [xfe] < length (replicate 3 "z"%char))%nat)
    by (cbn; lia).
  split; [exact (conj H (conj H1 H2))|].
  exact (sfd_hex_encode_lower_app [xca] [xfe] (replicate 5 "x"%char)
           (replicate 3 "y"%char) (replicate 3 "z"%char) H H1 H2).
Defined.
